(** * The Juug Translator: audio streaming, playback scheduling, turn aggregation

    A shallow embedding of the session component [App] of [src/App.tsx]:
    the React state and refs of the component, the browser objects it
    reaches (media streams, audio contexts, buffer source nodes) and the
    callbacks [cleanupAudio], [toggleSession], [startSession], [onopen],
    [onmessage], [onerror] and [onclose].

    Conventions.
    - A JavaScript string is the list of its UTF-16 code units.
    - A JavaScript number holding a time in seconds is an exact rational
      ([Q]); every finite double is one.  The rounding of [+] on doubles is
      not modelled: the statements about start times speak of the sums the
      handler forms, in the order in which it forms them.
    - A JavaScript object with identity (a [MediaStream], an [AudioContext],
      an [AudioBufferSourceNode]) is an index into a store of such objects;
      [Set<AudioBufferSourceNode>] is a [gset] of indices.
    - [Date.now()] and [ctx.currentTime] are readings of the environment and
      are passed to the handler that takes them.
    - The fields of a message that may be missing are options: the
      transcription text, which lines 114 and 117 append as it is, and the
      parts of a model turn, which line 134 indexes without a guard.
    - A run of a callback is one step; nothing is interleaved at the
      [await] of [onmessage] (line 139).  A callback that throws keeps the
      writes it has made. *)

From Stdlib Require Import ZArith QArith Qround Lia Lqa List String Ascii.
From Stdlib Require Strings.Byte.
From Stdlib Require Import DecimalString DecimalNat DecimalZ.
From stdpp Require Import gmap list.
Import ListNotations.

Local Open Scope Z_scope.

(** ** JavaScript strings *)

Module JsString.

Definition jsstring := list N.

(** Code units of a string literal of the source (ASCII only). *)
Definition lit (s : string) : jsstring :=
  map N_of_ascii (list_ascii_of_string s).

(** [WhiteSpace] and [LineTerminator] of ECMAScript, the code units that
    [String.prototype.trim] strips. *)
Definition isWhiteSpace (c : N) : bool :=
  ((9 <=? c) && (c <=? 13) || (c =? 32) || (c =? 160) || (c =? 5760)
   || (8192 <=? c) && (c <=? 8202) || (c =? 8232) || (c =? 8233)
   || (c =? 8239) || (c =? 8287) || (c =? 12288) || (c =? 65279))%N.

Fixpoint trimStart (s : jsstring) : jsstring :=
  match s with
  | [] => []
  | c :: s' => if isWhiteSpace c then trimStart s' else s
  end.

Definition trimEnd (s : jsstring) : jsstring := rev (trimStart (rev s)).

Definition trim (s : jsstring) : jsstring := trimEnd (trimStart s).

(** Truthiness of a string: the empty string is falsy. *)
Definition truthy (s : jsstring) : bool :=
  match s with [] => false | _ :: _ => true end.

End JsString.
Import JsString.

(** ** [src/types.ts] *)

Inductive Role := role_user | role_model.

Record Transcription := {
  role : Role;
  text : jsstring;
  timestamp : Z
}.

Inductive TranslationMode := AUTO | EN_TO_ES | ES_TO_EN.

Record TranslationSessionState := {
  isActive : bool;
  isConnecting : bool;
  mode : TranslationMode;
  error : option jsstring
}.

#[global] Instance Role_eq_dec : EqDecision Role.
Proof. solve_decision. Defined.

(** ** Browser objects reached by the component *)

(** A [MediaStream] returned by [getUserMedia]; [tracksLive] holds until
    [track.stop()] has been called on its tracks. *)
Record MediaStream := { tracksLive : bool }.

(** An [AudioContext]; [contextClosed] holds once [close()] was called. *)
Record AudioContext := { sampleRate : Z; contextClosed : bool }.

(** An [AudioBuffer]: the samples of its single channel, and its duration
    in seconds. *)
Record AudioBuffer := {
  channelData : list Q;
  bufferSampleRate : Z;
  duration : Q
}.

(** An [AudioBufferSourceNode]: its buffer, the argument of [start(when)]
    and whether [stop()] was called on it. *)
Record AudioBufferSourceNode := {
  buffer : AudioBuffer;
  startWhen : option Q;
  stopCalled : bool
}.

(** The live session behind [sessionPromiseRef]; [closeCalled] holds once
    the component called [close()] on it. *)
Record LiveSession := { closeCalled : bool }.

(** A thrown or rejected value; [err.message] may be missing. *)
Record JsError := { message : option jsstring }.

(** ** Messages of the live session ([LiveServerMessage]) *)

(** A transcription object of a message; its [text] may be missing. *)
Record LiveTranscription := { transcriptionText : option jsstring }.

(** What [+= t.text] appends for a transcription [t], lines 114 and 117: the
    text, or the string ["undefined"] when the object has no text. *)
Definition fragment (t : LiveTranscription) : jsstring :=
  match transcriptionText t with
  | Some s => s
  | None => lit "undefined"
  end.

Record Blob := { data : option jsstring }.
Record Part := { inlineData : option Blob }.
(** The content of a model turn; its [parts] may be missing. *)
Record Content := { parts : option (list Part) }.

Record LiveServerContent := {
  inputTranscription : option LiveTranscription;
  outputTranscription : option LiveTranscription;
  turnComplete : bool;
  modelTurn : option Content;
  interrupted : bool
}.

Record LiveServerMessage := { serverContent : option LiveServerContent }.

(** ** [./utils/audio-processing]

    The module is imported by [App.tsx]; the two functions the message
    handler calls are taken as an interface.  [decodeAudioData] answers
    [None] when it throws (its promise rejects). *)
Class AudioProcessing := {
  decode : jsstring -> list Byte.byte;
  decodeAudioData : list Byte.byte -> Z -> Z -> option AudioBuffer
}.

(** ** State of the component *)

Record TranscriptionBuffer := { user : jsstring; model : jsstring }.

Record App := {
  (* useState *)
  session : TranslationSessionState;
  transcriptions : list Transcription;
  micStream : option nat;
  (* useRef *)
  sessionPromiseRef : option nat;
  inputAudioContextRef : option nat;
  outputAudioContextRef : option nat;
  nextStartTimeRef : Q;
  sourcesRef : gset nat;
  transcriptionBufferRef : TranscriptionBuffer;
  (* object stores *)
  mediaStreams : list MediaStream;
  audioContexts : list AudioContext;
  sourceNodes : list AudioBufferSourceNode;
  liveSessions : list LiveSession
}.

Definition initialApp : App := {|
  session := {| isActive := false; isConnecting := false;
                mode := AUTO; error := None |};
  transcriptions := [];
  micStream := None;
  sessionPromiseRef := None;
  inputAudioContextRef := None;
  outputAudioContextRef := None;
  nextStartTimeRef := 0%Q;
  sourcesRef := ∅;
  transcriptionBufferRef := {| user := []; model := [] |};
  mediaStreams := [];
  audioContexts := [];
  sourceNodes := [];
  liveSessions := []
|}.

(** Field updates. *)
Definition set_session (f : TranslationSessionState -> TranslationSessionState) (st : App) : App :=
  let '(Build_App a b c d e g h i j k l m n) := st in Build_App (f a) b c d e g h i j k l m n.
Definition set_transcriptions (f : list Transcription -> list Transcription) (st : App) : App :=
  let '(Build_App a b c d e g h i j k l m n) := st in Build_App a (f b) c d e g h i j k l m n.
Definition set_micStream (v : option nat) (st : App) : App :=
  let '(Build_App a b c d e g h i j k l m n) := st in Build_App a b v d e g h i j k l m n.
Definition set_sessionPromiseRef (v : option nat) (st : App) : App :=
  let '(Build_App a b c d e g h i j k l m n) := st in Build_App a b c v e g h i j k l m n.
Definition set_inputAudioContextRef (v : option nat) (st : App) : App :=
  let '(Build_App a b c d e g h i j k l m n) := st in Build_App a b c d v g h i j k l m n.
Definition set_outputAudioContextRef (v : option nat) (st : App) : App :=
  let '(Build_App a b c d e g h i j k l m n) := st in Build_App a b c d e v h i j k l m n.
Definition set_nextStartTimeRef (v : Q) (st : App) : App :=
  let '(Build_App a b c d e g h i j k l m n) := st in Build_App a b c d e g v i j k l m n.
Definition set_sourcesRef (v : gset nat) (st : App) : App :=
  let '(Build_App a b c d e g h i j k l m n) := st in Build_App a b c d e g h v j k l m n.
Definition set_transcriptionBufferRef (v : TranscriptionBuffer) (st : App) : App :=
  let '(Build_App a b c d e g h i j k l m n) := st in Build_App a b c d e g h i v k l m n.
Definition set_mediaStreams (f : list MediaStream -> list MediaStream) (st : App) : App :=
  let '(Build_App a b c d e g h i j k l m n) := st in Build_App a b c d e g h i j (f k) l m n.
Definition set_audioContexts (f : list AudioContext -> list AudioContext) (st : App) : App :=
  let '(Build_App a b c d e g h i j k l m n) := st in Build_App a b c d e g h i j k (f l) m n.
Definition set_sourceNodes (f : list AudioBufferSourceNode -> list AudioBufferSourceNode) (st : App) : App :=
  let '(Build_App a b c d e g h i j k l m n) := st in Build_App a b c d e g h i j k l (f m) n.
Definition set_liveSessions (f : list LiveSession -> list LiveSession) (st : App) : App :=
  let '(Build_App a b c d e g h i j k l m n) := st in Build_App a b c d e g h i j k l m (f n).

(** ** Operations on the browser objects *)

(** [Math.max] on two numbers. *)
Definition Math_max (a b : Q) : Q := if Qle_bool b a then a else b.

Definition stopNode (n : AudioBufferSourceNode) : AudioBufferSourceNode :=
  {| buffer := buffer n; startWhen := startWhen n; stopCalled := true |}.

Definition closeContext (c : AudioContext) : AudioContext :=
  {| sampleRate := sampleRate c; contextClosed := true |}.

Definition stopTracks (m : MediaStream) : MediaStream := {| tracksLive := false |}.

Definition closeSession (s : LiveSession) : LiveSession := {| closeCalled := true |}.

(** [sourcesRef.current.forEach(source => source.stop())] *)
Definition stopSources (st : App) : App :=
  set_sourceNodes
    (imap (fun i n => if bool_decide (i ∈ sourcesRef st) then stopNode n else n)) st.

(** ** The callbacks of [App] *)

(** [cleanupAudio], lines 32-48. *)
Definition cleanupAudio (st : App) : App :=
  let st := match inputAudioContextRef st with
            | Some c => set_inputAudioContextRef None
                          (set_audioContexts (alter closeContext c) st)
            | None => st
            end in
  let st := match outputAudioContextRef st with
            | Some c => set_outputAudioContextRef None
                          (set_audioContexts (alter closeContext c) st)
            | None => st
            end in
  let st := match micStream st with
            | Some m => set_micStream None
                          (set_mediaStreams (alter stopTracks m) st)
            | None => st
            end in
  let st := stopSources st in
  let st := set_sourcesRef ∅ st in
  set_nextStartTimeRef 0%Q st.

(** What the environment does to one run of [startSession]: which of its
    acquisitions throws, if any. *)
Inductive Acquisition :=
| GetUserMediaRejected (err : JsError)
| InputContextThrew (err : JsError)
| OutputContextThrew (err : JsError)
| ConnectThrew (err : JsError)
| Acquired.

(** The [catch] block of [startSession], lines 173-176. *)
Definition startSessionCatch (err : JsError) (st : App) : App :=
  let msg := match message err with
             | Some m => if truthy m then m else lit "Failed to connect."
             | None => lit "Failed to connect."
             end in
  set_session (fun prev => {| isActive := isActive prev; isConnecting := false;
                              mode := mode prev; error := Some msg |}) st.

(** [startSession], lines 65-177. *)
Definition startSession (env : Acquisition) (st : App) : App :=
  let st := set_session (fun prev => {| isActive := isActive prev; isConnecting := true;
                                        mode := mode prev; error := None |}) st in
  match env with
  | GetUserMediaRejected err => startSessionCatch err st
  | _ =>
    let stream := length (mediaStreams st) in
    let st := set_mediaStreams (fun l => l ++ [{| tracksLive := true |}]) st in
    let st := set_micStream (Some stream) st in
    match env with
    | InputContextThrew err => startSessionCatch err st
    | _ =>
      let inputCtx := length (audioContexts st) in
      let st := set_audioContexts
                  (fun l => l ++ [{| sampleRate := 16000; contextClosed := false |}]) st in
      match env with
      | OutputContextThrew err => startSessionCatch err st
      | _ =>
        let outputCtx := length (audioContexts st) in
        let st := set_audioContexts
                    (fun l => l ++ [{| sampleRate := 24000; contextClosed := false |}]) st in
        let st := set_inputAudioContextRef (Some inputCtx) st in
        let st := set_outputAudioContextRef (Some outputCtx) st in
        match env with
        | ConnectThrew err => startSessionCatch err st
        | _ =>
          let sessionPromise := length (liveSessions st) in
          let st := set_liveSessions (fun l => l ++ [{| closeCalled := false |}]) st in
          set_sessionPromiseRef (Some sessionPromise) st
        end
      end
    end
  end.

(** [toggleSession], lines 50-63. *)
Definition toggleSession (env : Acquisition) (st : App) : App :=
  if isActive (session st) then
    let st := match sessionPromiseRef st with
              | Some s => set_liveSessions (alter closeSession s) st
              | None => st
              end in
    let st := cleanupAudio st in
    set_session (fun prev => {| isActive := false; isConnecting := false;
                                mode := mode prev; error := error prev |}) st
  else startSession env st.

(** [onopen], lines 96-110 (the capture graph it builds is not modelled). *)
Definition onopen (st : App) : App :=
  set_session (fun prev => {| isActive := true; isConnecting := false;
                              mode := mode prev; error := error prev |}) st.

(** [onerror], lines 160-163. *)
Definition onerror (err : JsError) (st : App) : App :=
  set_session (fun prev => {| isActive := false; isConnecting := false; mode := mode prev;
                              error := Some (lit "Connection error occurred.") |}) st.

(** [onclose], lines 164-167. *)
Definition onclose (st : App) : App :=
  set_session (fun prev => {| isActive := false; isConnecting := false;
                              mode := mode prev; error := error prev |}) st.

(** The ['ended'] listener of a source node, lines 144-146. *)
Definition onended (sourceNode : nat) (st : App) : App :=
  set_sourcesRef (sourcesRef st ∖ {[sourceNode]}) st.

(** *** [onmessage], lines 111-159 *)

(** "Handle Transcription", lines 113-118. *)
Definition handleTranscription (message : LiveServerMessage) (st : App) : App :=
  let st :=
    match serverContent message ≫= inputTranscription with
    | Some t =>
        let buf := transcriptionBufferRef st in
        set_transcriptionBufferRef {| user := user buf ++ fragment t; model := model buf |} st
    | None => st
    end in
  match serverContent message ≫= outputTranscription with
  | Some t =>
      let buf := transcriptionBufferRef st in
      set_transcriptionBufferRef {| user := user buf; model := model buf ++ fragment t |} st
  | None => st
  end.

(** The entries appended at a turn boundary, lines 125-127.  [tUser] is the
    reading of [Date.now()] on line 126 and [tModel] that on line 127. *)
Definition turnEntries (tUser tModel : Z) (userText modelText : jsstring) : list Transcription :=
  (if truthy userText
   then [{| role := role_user; text := userText; timestamp := tUser |}] else [])
  ++ (if truthy modelText
      then [{| role := role_model; text := modelText; timestamp := tModel + 1 |}] else []).

(** Lines 119-131. *)
Definition handleTurnComplete (tUser tModel : Z) (message : LiveServerMessage) (st : App) : App :=
  match turnComplete <$> serverContent message with
  | Some true =>
      let userText := trim (user (transcriptionBufferRef st)) in
      let modelText := trim (model (transcriptionBufferRef st)) in
      let st := if truthy userText || truthy modelText
                then set_transcriptions
                       (fun prev => prev ++ turnEntries tUser tModel userText modelText) st
                else st in
      set_transcriptionBufferRef {| user := []; model := [] |} st
  | _ => st
  end.

(** Line 134 indexes [parts] without a guard: the read throws a [TypeError]
    when the message has a [modelTurn] whose [parts] is missing. *)
Definition partsMissing (message : LiveServerMessage) : bool :=
  match serverContent message ≫= modelTurn with
  | Some m => match parts m with None => true | Some _ => false end
  | None => false
  end.

(** [message.serverContent?.modelTurn?.parts[0]?.inlineData?.data], line 134,
    when the read does not throw. *)
Definition base64Audio (message : LiveServerMessage) : option jsstring :=
  c ← serverContent message; m ← modelTurn c; ps ← parts m; p ← head ps;
  b ← inlineData p; data b.

(** Line 137. *)
Definition syncToClock (currentTime : Q) (st : App) : App :=
  set_nextStartTimeRef (Math_max (nextStartTimeRef st) currentTime) st.

(** Lines 140-150: create the source node, start it at [nextStartTimeRef],
    advance [nextStartTimeRef] by the buffer's duration, register the node. *)
Definition schedule (audioBuffer : AudioBuffer) (st : App) : App :=
  let sourceNode := length (sourceNodes st) in
  let st := set_sourceNodes
              (fun l => l ++ [{| buffer := audioBuffer;
                                 startWhen := Some (nextStartTimeRef st);
                                 stopCalled := false |}]) st in
  let st := set_nextStartTimeRef (nextStartTimeRef st + duration audioBuffer)%Q st in
  set_sourcesRef (sourcesRef st ∪ {[sourceNode]}) st.

(** The scheduler's enqueue of one decoded buffer: lines 137-150 with the
    decoded buffer in hand. *)
Definition enqueue (currentTime : Q) (audioBuffer : AudioBuffer) (st : App) : App :=
  schedule audioBuffer (syncToClock currentTime st).

(** "Handle Interruptions", lines 155-157: the scheduler's flush. *)
Definition flush (st : App) : App :=
  let st := stopSources st in
  let st := set_sourcesRef ∅ st in
  set_nextStartTimeRef 0%Q st.

(** Lines 153-158. *)
Definition handleInterruptions (message : LiveServerMessage) (st : App) : App :=
  match interrupted <$> serverContent message with
  | Some true => flush st
  | _ => st
  end.

(** How the promise of the [async] handler settles. *)
Inductive Settled := Fulfilled | Rejected.

Section OnMessage.
Context `{AudioProcessing}.

(** "Handle Audio Output", lines 134-151.  When line 134 throws, the
    handler stops before line 135.  When [decodeAudioData] throws, the
    handler stops there: line 137 has run, lines 140-158 have not. *)
Definition handleAudioOutput (currentTime : Q) (message : LiveServerMessage) (st : App)
  : Settled * App :=
  if partsMissing message then (Rejected, st)
  else
    match base64Audio message, outputAudioContextRef st with
    | Some b64, Some ctx =>
        if truthy b64 then
          let st := syncToClock currentTime st in
          match decodeAudioData (decode b64) 24000 1 with
          | Some audioBuffer => (Fulfilled, schedule audioBuffer st)
          | None => (Rejected, st)
          end
        else (Fulfilled, st)
    | _, _ => (Fulfilled, st)
    end.

(** [onmessage].  [currentTime] is the reading of [ctx.currentTime] on
    line 137; [tUser] and [tModel] are the readings of [Date.now()]. *)
Definition onmessage (currentTime : Q) (tUser tModel : Z)
    (message : LiveServerMessage) (st : App) : Settled * App :=
  let st := handleTranscription message st in
  let st := handleTurnComplete tUser tModel message st in
  match handleAudioOutput currentTime message st with
  | (Fulfilled, st) => (Fulfilled, handleInterruptions message st)
  | (Rejected, st) => (Rejected, st)
  end.

End OnMessage.

(** ** Chunk Decoder and Frame Encoder

    [decodeAudioData] and [createBlob] live in [utils/audio-processing],
    whose source is missing; both are written from sections 4.1 and 4.2 of
    the specification. *)

Module ChunkDecoder.

(** The 16-bit signed integer stored little-endian in two bytes. *)
Definition int16_of_bytes (lo hi : Byte.byte) : Z :=
  let u := Z.of_N (Byte.to_N lo) + 256 * Z.of_N (Byte.to_N hi) in
  if u <? 32768 then u else u - 65536.

Fixpoint int16s (payload : list Byte.byte) : list Z :=
  match payload with
  | lo :: hi :: rest => int16_of_bytes lo hi :: int16s rest
  | _ => []
  end.

(** Modelled from the spec: [decodeAudioData] of [utils/audio-processing]
    is missing.  Section 4.2: the sample count is [payloadLength / 2], each
    sample is [int16 / 32768.0], the duration is [sampleCount / sampleRate],
    and decoding fails when the payload is empty or its length is not a
    multiple of 2. *)
Definition decodeAudioData (payload : list Byte.byte) (sampleRate numChannels : Z)
  : option AudioBuffer :=
  if (length payload =? 0)%nat || negb (Nat.even (length payload)) then None
  else
    let samples := map (fun i => (inject_Z i / 32768)%Q) (int16s payload) in
    Some {| channelData := samples;
            bufferSampleRate := sampleRate;
            duration := (inject_Z (Z.of_nat (length samples)) / inject_Z sampleRate)%Q |}.

End ChunkDecoder.

Module FrameEncoder.

Definition clamp (x : Q) : Q :=
  if Qle_bool x (-1)%Q then (-1)%Q else if Qle_bool 1%Q x then 1%Q else x.

(** [Math.round]: the nearest integer, halves towards positive infinity. *)
Definition round (x : Q) : Z := Qfloor (x + (1 # 2))%Q.

Definition encodeSample (x : Q) : Z := round (clamp x * 32767)%Q.

Definition byte_of_Z (z : Z) : Byte.byte :=
  match Byte.of_N (Z.to_N (z mod 256)) with
  | Some b => b
  | None => Byte.x00
  end.

(** The two bytes of a 16-bit integer, low byte first. *)
Definition int16_bytes (v : Z) : list Byte.byte :=
  [byte_of_Z v; byte_of_Z (v / 256)].

(** Modelled from the spec: [createBlob] of [utils/audio-processing] is
    missing.  Section 4.1: a frame of 16-bit signed little-endian samples,
    one per input sample, each [round(clamp(x,-1,1) * 32767)]. *)
Definition createBlob (inputData : list Q) : list Byte.byte :=
  flat_map (fun x => int16_bytes (encodeSample x)) inputData.

End FrameEncoder.

(** The decoder of the spec as an implementation of the interface, for any
    base64 decoder. *)
Definition specAudioProcessing (decode : jsstring -> list Byte.byte) : AudioProcessing :=
  {| decode := decode; decodeAudioData := ChunkDecoder.decodeAudioData |}.

(** ** Devices held by the component *)

Definition holdsCapture (st : App) : bool := existsb tracksLive (mediaStreams st).

Definition holdsOutput (st : App) : bool :=
  existsb (fun c => negb (contextClosed c)) (audioContexts st).

Definition holdsDevice (st : App) : bool := holdsCapture st || holdsOutput st.

(** ** Runs of the scheduler *)

(** Buffers enqueued in order; each comes with the reading of the output
    clock at its arrival. *)
Definition enqueueAll (arrivals : list (Q * AudioBuffer)) (st : App) : App :=
  fold_left (fun st a => enqueue (fst a) (snd a) st) arrivals st.

(** The start arguments of the source nodes created since the store held
    [k] nodes. *)
Definition startsSince (k : nat) (st : App) : list (option Q) :=
  map startWhen (drop k (sourceNodes st)).

(** Start times when every buffer starts at the larger of the running
    [nextStartTime] and the clock at its arrival. *)
Fixpoint startTimes (next : Q) (arrivals : list (Q * AudioBuffer)) : list Q :=
  match arrivals with
  | [] => []
  | (now, b) :: rest =>
      let s := Math_max next now in s :: startTimes (s + duration b)%Q rest
  end.

(** [t; t+d1; t+d1+d2; ...] *)
Fixpoint backToBack (t : Q) (durations : list Q) : list Q :=
  match durations with
  | [] => []
  | d :: ds => t :: backToBack (t + d)%Q ds
  end.

(** Every arrival happens before the output clock passes [next]. *)
Fixpoint inTime (next : Q) (arrivals : list (Q * AudioBuffer)) : Prop :=
  match arrivals with
  | [] => True
  | (now, b) :: rest => (now <= next)%Q /\ inTime (next + duration b)%Q rest
  end.

(** The buffer of a role. *)
Definition bufferOf (r : Role) (buf : TranscriptionBuffer) : jsstring :=
  match r with role_user => user buf | role_model => model buf end.

(** A buffer of [d] seconds, for examples. *)
Definition tone (d : Q) : AudioBuffer :=
  {| channelData := [0%Q]; bufferSampleRate := 24000; duration := d |}.

(** A session brought up from the initial state: start, open, one chunk of
    [d] seconds enqueued at clock [now]. *)
Definition runningSession (now d : Q) : App :=
  enqueue now (tone d) (onopen (toggleSession Acquired initialApp)).

(** ** Frames *)

(** [st'] differs from [st] at most in the scheduler's fields: the node
    store, the handle set and [nextStartTimeRef]. *)
Definition playbackOnly (st st' : App) : Prop :=
  session st' = session st
  /\ transcriptions st' = transcriptions st
  /\ transcriptionBufferRef st' = transcriptionBufferRef st
  /\ micStream st' = micStream st
  /\ sessionPromiseRef st' = sessionPromiseRef st
  /\ inputAudioContextRef st' = inputAudioContextRef st
  /\ outputAudioContextRef st' = outputAudioContextRef st
  /\ mediaStreams st' = mediaStreams st
  /\ audioContexts st' = audioContexts st
  /\ liveSessions st' = liveSessions st.

(** [st'] differs from [st] at most in the transcript log and buffers. *)
Definition dialogueOnly (st st' : App) : Prop :=
  session st' = session st
  /\ micStream st' = micStream st
  /\ sessionPromiseRef st' = sessionPromiseRef st
  /\ inputAudioContextRef st' = inputAudioContextRef st
  /\ outputAudioContextRef st' = outputAudioContextRef st
  /\ nextStartTimeRef st' = nextStartTimeRef st
  /\ sourcesRef st' = sourcesRef st
  /\ mediaStreams st' = mediaStreams st
  /\ audioContexts st' = audioContexts st
  /\ sourceNodes st' = sourceNodes st
  /\ liveSessions st' = liveSessions st.

(** Every live stream and every open context is one the component still
    refers to. *)
Definition tracked (st : App) : Prop :=
  (forall (i : nat) (m : MediaStream),
      mediaStreams st !! i = Some m -> tracksLive m = true -> micStream st = Some i)
  /\ (forall (i : nat) (c : AudioContext),
        audioContexts st !! i = Some c -> contextClosed c = false ->
        inputAudioContextRef st = Some i \/ outputAudioContextRef st = Some i).

(** ** Example messages *)
Definition inputFragment (s : string) : LiveServerMessage :=
  {| serverContent := Some
       {| inputTranscription := Some {| transcriptionText := Some (lit s) |};
          outputTranscription := None;
          turnComplete := false; modelTurn := None; interrupted := false |} |}.

Definition outputFragment (s : string) : LiveServerMessage :=
  {| serverContent := Some
       {| inputTranscription := None;
          outputTranscription := Some {| transcriptionText := Some (lit s) |};
          turnComplete := false; modelTurn := None; interrupted := false |} |}.

Definition turnCompleteSignal : LiveServerMessage :=
  {| serverContent := Some
       {| inputTranscription := None; outputTranscription := None;
          turnComplete := true; modelTurn := None; interrupted := false |} |}.

Definition interruptedSignal : LiveServerMessage :=
  {| serverContent := Some
       {| inputTranscription := None; outputTranscription := None;
          turnComplete := false; modelTurn := None; interrupted := true |} |}.

Definition speechChunk (b64 : jsstring) (andInterrupted : bool) : LiveServerMessage :=
  {| serverContent := Some
       {| inputTranscription := None; outputTranscription := None; turnComplete := false;
          modelTurn := Some {| parts := Some [{| inlineData := Some {| data := Some b64 |} |}] |};
          interrupted := andInterrupted |} |}.

(** A message with its model turn, hence its chunk, taken out. *)
Definition withoutChunk (message : LiveServerMessage) : LiveServerMessage :=
  {| serverContent :=
       (fun c => {| inputTranscription := inputTranscription c;
                    outputTranscription := outputTranscription c;
                    turnComplete := turnComplete c; modelTurn := None;
                    interrupted := interrupted c |}) <$> serverContent message |}.

(** A message whose model turn has no [parts]. *)
Definition turnWithoutParts (andInterrupted : bool) : LiveServerMessage :=
  {| serverContent := Some
       {| inputTranscription := None; outputTranscription := None; turnComplete := false;
          modelTurn := Some {| parts := None |}; interrupted := andInterrupted |} |}.

(** A message with a transcription object for the model that has no text. *)
Definition outputWithoutText : LiveServerMessage :=
  {| serverContent := Some
       {| inputTranscription := None;
          outputTranscription := Some {| transcriptionText := None |};
          turnComplete := false; modelTurn := None; interrupted := false |} |}.

(** A content with its [interrupted] flag replaced. *)
Definition withInterrupted (flag : bool) (c : LiveServerContent) : LiveServerMessage :=
  {| serverContent := Some
       {| inputTranscription := inputTranscription c;
          outputTranscription := outputTranscription c;
          turnComplete := turnComplete c; modelTurn := modelTurn c;
          interrupted := flag |} |}.

(** A stand-in for [decode] in examples: one byte per code unit. *)
Definition bytesOfUnits (s : jsstring) : list Byte.byte :=
  map (fun c => match Byte.of_N c with Some b => b | None => Byte.x00 end) s.

Definition exampleAudio : AudioProcessing := specAudioProcessing bytesOfUnits.

(** The messages of a session, handled in order; a rejected handler leaves
    its state behind like any other. *)
Definition onmessages `{AudioProcessing} (now : Q) (t : Z)
    (messages : list LiveServerMessage) (st : App) : App :=
  fold_left (fun st m => snd (onmessage now t t m st)) messages st.

(** ** Events of the component *)

(** The "Clear" button, line 242. *)
Definition clearLog (st : App) : App := set_transcriptions (fun _ => []) st.

(** A click on the round button, lines 210-212: the button is disabled
    while the session is connecting. *)
Definition clickToggle (env : Acquisition) (st : App) : App :=
  if isConnecting (session st) then st else toggleSession env st.

(** What can happen to the component: the user's clicks, the callbacks of
    the live session and the ['ended'] event of a source node. *)
Inductive Event :=
| Click (env : Acquisition)
| ClearClicked
| Opened
| Message (currentTime : Q) (tUser tModel : Z) (message : LiveServerMessage)
| Errored (err : JsError)
| Closed
| Ended (sourceNode : nat).

Section Run.
Context `{AudioProcessing}.

Definition step (ev : Event) (st : App) : App :=
  match ev with
  | Click env => clickToggle env st
  | ClearClicked => clearLog st
  | Opened => onopen st
  | Message currentTime tUser tModel message =>
      snd (onmessage currentTime tUser tModel message st)
  | Errored err => onerror err st
  | Closed => onclose st
  | Ended sourceNode => onended sourceNode st
  end.

Definition run (events : list Event) (st : App) : App :=
  fold_left (fun st ev => step ev st) events st.

End Run.

(** What a message appends to the buffer of a role: the [fragment] of its
    transcription object for that role, nothing when it has no such
    object. *)
Definition fragmentOf (r : Role) (message : LiveServerMessage) : jsstring :=
  match serverContent message ≫=
        (match r with role_user => inputTranscription | role_model => outputTranscription end)
  with
  | Some t => fragment t
  | None => []
  end.

(** A message without the turn-complete signal. *)
Definition midTurn (message : LiveServerMessage) : bool :=
  match turnComplete <$> serverContent message with
  | Some true => false
  | _ => true
  end.

(** The fragment an event brings for a role. *)
Definition eventFragment (r : Role) (ev : Event) : jsstring :=
  match ev with
  | Message _ _ _ message => fragmentOf r message
  | _ => []
  end.

(** An event that closes a turn: a message with the turn-complete signal. *)
Definition closesTurn (ev : Event) : bool :=
  match ev with
  | Message _ _ _ message => negb (midTurn message)
  | _ => false
  end.

(** All code units are white space. *)
Definition blank (s : jsstring) : Prop := Forall (fun c => isWhiteSpace c = true) s.

(** The error a run of [startSession] ends on, if any. *)
Definition thrown (env : Acquisition) : option JsError :=
  match env with
  | GetUserMediaRejected err | InputContextThrew err
  | OutputContextThrew err | ConnectThrew err => Some err
  | Acquired => None
  end.

(** ** What [App] renders from the session record, lines 184-233 *)

Inductive ButtonIcon := Spinner | StopIcon | MicIcon.

(** Lines 219-228. *)
Definition buttonIcon (s : TranslationSessionState) : ButtonIcon :=
  if isConnecting s then Spinner else if isActive s then StopIcon else MicIcon.

(** Line 232. *)
Definition statusLabel (s : TranslationSessionState) : jsstring :=
  if isActive s then lit "Tap to stop translating"
  else if isConnecting s then lit "Connecting..."
  else lit "Tap to start voice translation".

(** Line 212. *)
Definition buttonDisabled (s : TranslationSessionState) : bool := isConnecting s.

(** Lines 201-205: [session.error && <div>...</div>]; the banner and its
    text, when there is one. *)
Definition errorBanner (s : TranslationSessionState) : option jsstring :=
  match error s with
  | Some msg => if truthy msg then Some msg else None
  | None => None
  end.

(** ** [TranslationLog], [src/components/TranslationLog.tsx] *)

(** [`${n}`] for an integer below 10^21 in absolute value: its decimal
    digits, with a minus sign when negative. *)
Definition numberToString (z : Z) : jsstring :=
  lit (NilEmpty.string_of_int (Z.to_int z)).

Definition indexToString (i : nat) : jsstring :=
  lit (NilEmpty.string_of_uint (Nat.to_uint i)).

(** One rendered entry, lines 29-43: its React key, whether the column is
    aligned to the end ([items-end]), the text and the caption. *)
Record Bubble := {
  bubbleKey : jsstring;
  itemsEnd : bool;
  bubbleText : jsstring;
  caption : jsstring
}.

Inductive LogView :=
| Placeholder (hint : jsstring)
| Bubbles (entries : list Bubble).

Definition renderEntry (i : nat) (t : Transcription) : Bubble :=
  {| bubbleKey := numberToString (timestamp t) ++ lit "-" ++ indexToString i;
     itemsEnd := bool_decide (role t = role_user);
     bubbleText := text t;
     caption := if bool_decide (role t = role_user)
                then lit "Original" else lit "Translated" |}.

(** Lines 23-45. *)
Definition TranslationLog (transcriptions : list Transcription) : LogView :=
  if (length transcriptions =? 0)%nat
  then Placeholder (lit "Start speaking to see translations...")
  else Bubbles (imap renderEntry transcriptions).

(** ** [AudioVisualizer], the [draw] callback, lines 286-300 of its file *)

(** One [fillRect] call with the alpha of its [fillStyle]. *)
Record Bar := {
  barX : Q;
  barY : Q;
  barW : Q;
  barH : Q;
  barAlpha : Q
}.

(** The loop of lines 294-299, from position [x] on. *)
Fixpoint drawBars (canvasHeight barWidth x : Q) (dataArray : list Byte.byte) : list Bar :=
  match dataArray with
  | [] => []
  | d :: rest =>
      let v := inject_Z (Z.of_N (Byte.to_N d)) in
      let barHeight := (v / 255 * canvasHeight)%Q in
      {| barX := x;
         barY := (canvasHeight - barHeight)%Q;
         barW := barWidth;
         barH := barHeight;
         barAlpha := (v / 255 + (2 # 10))%Q |}
      :: drawBars canvasHeight barWidth (x + (barWidth + 2))%Q rest
  end.

(** The bars of one frame for the byte frequency data [dataArray]. *)
Definition draw (canvasWidth canvasHeight : Q) (dataArray : list Byte.byte) : list Bar :=
  let barWidth := (canvasWidth / inject_Z (Z.of_nat (length dataArray)) * (25 # 10))%Q in
  drawBars canvasHeight barWidth 0%Q dataArray.

(** ** Invariants *)

(** Every handle of the set is a node of the store that was started and
    not stopped. *)
Definition handlesLive (st : App) : Prop :=
  forall i : nat,
    i ∈ sourcesRef st ->
    exists n : AudioBufferSourceNode,
      sourceNodes st !! i = Some n /\ stopCalled n = false /\ is_Some (startWhen n).

(** Stream [i] is live and the component has no reference to it. *)
Definition orphanStream (i : nat) (st : App) : Prop :=
  micStream st <> Some i
  /\ exists m : MediaStream, mediaStreams st !! i = Some m /\ tracksLive m = true.

(** A text with at least one code unit and no white space at either end. *)
Definition trimmed (s : jsstring) : Prop :=
  s <> []
  /\ (forall c : N, head s = Some c -> isWhiteSpace c = false)
  /\ (forall c : N, last s = Some c -> isWhiteSpace c = false).

(** Events that belong to an open session: messages, ended nodes and the
    "Clear" button. *)
Definition inSession (ev : Event) : bool :=
  match ev with
  | Message _ _ _ _ | Ended _ | ClearClicked => true
  | _ => false
  end.

(** * Properties *)

(** ** Field lemmas *)

Lemma Math_max_l (a b : Q) : (b <= a)%Q -> Math_max a b = a.
Proof.
  intros Hle. unfold Math_max.
  apply Qle_bool_iff in Hle. now rewrite Hle.
Qed.

Lemma enqueue_sourceNodes (now : Q) (b : AudioBuffer) (st : App) :
  sourceNodes (enqueue now b st)
  = sourceNodes st ++ [{| buffer := b;
                          startWhen := Some (Math_max (nextStartTimeRef st) now);
                          stopCalled := false |}].
Proof. destruct st; reflexivity. Qed.

Lemma enqueue_nextStartTimeRef (now : Q) (b : AudioBuffer) (st : App) :
  nextStartTimeRef (enqueue now b st)
  = (Math_max (nextStartTimeRef st) now + duration b)%Q.
Proof. destruct st; reflexivity. Qed.

Lemma enqueue_sourcesRef (now : Q) (b : AudioBuffer) (st : App) :
  sourcesRef (enqueue now b st) = sourcesRef st ∪ {[length (sourceNodes st)]}.
Proof. destruct st; reflexivity. Qed.

Lemma startsSince_app (st : App) (l new : list AudioBufferSourceNode) :
  sourceNodes st = l ++ new -> startsSince (length l) st = map startWhen new.
Proof.
  intros E. unfold startsSince. rewrite E.
  now rewrite drop_app_length.
Qed.

(** The nodes a run creates, and where [nextStartTimeRef] ends. *)
Lemma enqueueAll_trace (arrivals : list (Q * AudioBuffer)) :
  forall st : App,
    exists new : list AudioBufferSourceNode,
      sourceNodes (enqueueAll arrivals st) = sourceNodes st ++ new
      /\ map startWhen new = map Some (startTimes (nextStartTimeRef st) arrivals)
      /\ map buffer new = map snd arrivals.
Proof.
  induction arrivals as [|[now b] rest IH]; intros st.
  - exists []. cbn. now rewrite app_nil_r.
  - destruct (IH (enqueue now b st)) as (new & Hn & Hs & Hb).
    exists ({| buffer := b; startWhen := Some (Math_max (nextStartTimeRef st) now);
               stopCalled := false |} :: new).
    change (enqueueAll ((now, b) :: rest) st) with (enqueueAll rest (enqueue now b st)).
    rewrite Hn, enqueue_sourceNodes, <- app_assoc. split; [reflexivity|].
    cbn. rewrite Hs, Hb, enqueue_nextStartTimeRef. split; reflexivity.
Qed.

Lemma enqueueAll_next (arrivals : list (Q * AudioBuffer)) :
  forall st : App,
    nextStartTimeRef (enqueueAll arrivals st)
    = fold_left (fun n a => (Math_max n (fst a) + duration (snd a))%Q)
        arrivals (nextStartTimeRef st).
Proof.
  induction arrivals as [|[now b] rest IH]; intros st; [reflexivity|].
  change (enqueueAll ((now, b) :: rest) st) with (enqueueAll rest (enqueue now b st)).
  rewrite IH, enqueue_nextStartTimeRef. reflexivity.
Qed.

(** While arrivals are in time, the clock never wins the [max]. *)
Lemma startTimes_inTime (arrivals : list (Q * AudioBuffer)) :
  forall next : Q,
    inTime next arrivals ->
    startTimes next arrivals = backToBack next (map (fun a => duration (snd a)) arrivals)
    /\ fold_left (fun n a => (Math_max n (fst a) + duration (snd a))%Q) arrivals next
       = fold_left Qplus (map (fun a => duration (snd a)) arrivals) next.
Proof.
  induction arrivals as [|[now b] rest IH]; intros next Hin; [now split|].
  destruct Hin as [Hnow Hrest]. cbn.
  rewrite (Math_max_l _ _ Hnow).
  destruct (IH _ Hrest) as [-> ->]. now split.
Qed.

(** A message from which line 134 reads a chunk has [parts]. *)
Lemma base64Audio_parts (message : LiveServerMessage) (b64 : jsstring) :
  base64Audio message = Some b64 -> partsMissing message = false.
Proof.
  unfold base64Audio, partsMissing.
  destruct (serverContent message) as [c|]; [|discriminate]. cbn.
  destruct (modelTurn c) as [m|]; [|discriminate]. cbn.
  now destruct (parts m).
Qed.

Section Linking.
Context `{AudioProcessing}.

(** A chunk that decodes is enqueued. *)
Lemma handleAudioOutput_enqueue (now : Q) (message : LiveServerMessage) (st : App)
    (b64 : jsstring) (ctx : nat) (audioBuffer : AudioBuffer) :
  base64Audio message = Some b64 ->
  truthy b64 = true ->
  outputAudioContextRef st = Some ctx ->
  decodeAudioData (decode b64) 24000 1 = Some audioBuffer ->
  handleAudioOutput now message st = (Fulfilled, enqueue now audioBuffer st).
Proof.
  intros Hb Ht Hc Hd. unfold handleAudioOutput.
  rewrite (base64Audio_parts message b64 Hb), Hb, Hc, Ht, Hd. reflexivity.
Qed.

(** A chunk that does not decode: the handler stops after line 137. *)
Lemma handleAudioOutput_reject (now : Q) (message : LiveServerMessage) (st : App)
    (b64 : jsstring) (ctx : nat) :
  base64Audio message = Some b64 ->
  truthy b64 = true ->
  outputAudioContextRef st = Some ctx ->
  decodeAudioData (decode b64) 24000 1 = None ->
  handleAudioOutput now message st = (Rejected, syncToClock now st).
Proof.
  intros Hb Ht Hc Hd. unfold handleAudioOutput.
  rewrite (base64Audio_parts message b64 Hb), Hb, Hc, Ht, Hd. reflexivity.
Qed.

End Linking.

(** ** C1: gapless scheduling *)

(** C1.  Buffers enqueued in order on the playback scheduler: every buffer
    is started at [max(nextStartTime, currentOutputClock)] as read when it
    is enqueued, and [nextStartTime] becomes that start time plus the
    buffer's duration; this is what [onmessage] does with a chunk that
    decodes.  When every arrival after the first comes before the
    output clock has passed [nextStartTime], the start times are
    [t0], [t0+d1], [t0+d1+d2], ... with [t0] the first start time, and
    [nextStartTime] ends at [t0+d1+...+dn]. *)
Theorem scheduler_back_to_back (st : App) (arrivals : list (Q * AudioBuffer)) :
  startsSince (length (sourceNodes st)) (enqueueAll arrivals st)
  = map Some (startTimes (nextStartTimeRef st) arrivals)
  /\ (forall (now : Q) (b : AudioBuffer) (s : App),
        startsSince (length (sourceNodes s)) (enqueue now b s)
        = [Some (Math_max (nextStartTimeRef s) now)]
        /\ nextStartTimeRef (enqueue now b s)
           = (Math_max (nextStartTimeRef s) now + duration b)%Q
        /\ sourcesRef (enqueue now b s) = sourcesRef s ∪ {[length (sourceNodes s)]})
  /\ (forall (AP : AudioProcessing) (now : Q) (message : LiveServerMessage) (s : App)
             (b64 : jsstring) (ctx : nat) (b : AudioBuffer),
        base64Audio message = Some b64 -> truthy b64 = true ->
        outputAudioContextRef s = Some ctx ->
        decodeAudioData (decode b64) 24000 1 = Some b ->
        handleAudioOutput now message s = (Fulfilled, enqueue now b s))
  /\ (forall (now1 : Q) (b1 : AudioBuffer) (rest : list (Q * AudioBuffer)),
        arrivals = (now1, b1) :: rest ->
        let t0 := Math_max (nextStartTimeRef st) now1 in
        inTime (t0 + duration b1)%Q rest ->
        startsSince (length (sourceNodes st)) (enqueueAll arrivals st)
        = map Some (backToBack t0 (map (fun a => duration (snd a)) arrivals))
        /\ nextStartTimeRef (enqueueAll arrivals st)
           = fold_left Qplus (map (fun a => duration (snd a)) arrivals) t0).
Proof.
  assert (Hall : startsSince (length (sourceNodes st)) (enqueueAll arrivals st)
                 = map Some (startTimes (nextStartTimeRef st) arrivals)).
  { destruct (enqueueAll_trace arrivals st) as (new & Hn & Hs & _).
    rewrite (startsSince_app _ _ _ Hn). exact Hs. }
  split; [exact Hall|]. split.
  - intros now b s. split; [|split].
    + rewrite (startsSince_app _ _ _ (enqueue_sourceNodes now b s)). reflexivity.
    + apply enqueue_nextStartTimeRef.
    + apply enqueue_sourcesRef.
  - split; [intros AP; apply handleAudioOutput_enqueue|].
    intros now1 b1 rest -> t0 Hin.
    destruct (startTimes_inTime rest _ Hin) as [Hst Hnx]. split.
    + rewrite Hall. cbn. fold t0. now rewrite Hst.
    + rewrite enqueueAll_next. cbn. fold t0. exact Hnx.
Qed.

Lemma scheduler_back_to_back_witness :
  startsSince 0 (enqueueAll [(0%Q, tone (1 # 10)); (1 # 20, tone (1 # 5)); (1 # 4, tone (1 # 10))]
                   (onopen (toggleSession Acquired initialApp)))
  = [Some 0%Q; Some (1 # 10); Some (15 # 50)]
  /\ nextStartTimeRef
       (enqueueAll [(0%Q, tone (1 # 10)); (1 # 20, tone (1 # 5)); (1 # 4, tone (1 # 10))]
          (onopen (toggleSession Acquired initialApp)))
     = 200 # 500.
Proof.
  apply (proj2 (proj2 (proj2 (scheduler_back_to_back
                         (onopen (toggleSession Acquired initialApp))
                         [(0%Q, tone (1 # 10)); (1 # 20, tone (1 # 5)); (1 # 4, tone (1 # 10))])))
           0%Q (tone (1 # 10)) [(1 # 20, tone (1 # 5)); (1 # 4, tone (1 # 10))] eq_refl).
  vm_compute. repeat split; discriminate.
Defined.

(** ** The flush *)

Lemma stopSources_lookup (st : App) (i : nat) :
  sourceNodes (stopSources st) !! i
  = (fun n => if bool_decide (i ∈ sourcesRef st) then stopNode n else n)
      <$> sourceNodes st !! i.
Proof. destruct st; cbn. apply list_lookup_imap. Qed.

Lemma stopSources_empty (st : App) : sourcesRef st = ∅ -> stopSources st = st.
Proof.
  intros He.
  assert (Hn : sourceNodes (stopSources st) = sourceNodes st).
  { apply list_eq. intros i. rewrite stopSources_lookup, He.
    destruct (sourceNodes st !! i); cbn; [|reflexivity].
    rewrite bool_decide_eq_false_2; [reflexivity | set_solver]. }
  destruct st; cbn in *. now f_equal.
Qed.

Lemma flush_sourcesRef (st : App) : sourcesRef (flush st) = ∅.
Proof. destruct st; reflexivity. Qed.

Lemma flush_nextStartTimeRef (st : App) : nextStartTimeRef (flush st) = 0%Q.
Proof. destruct st; reflexivity. Qed.

Lemma flush_sourceNodes (st : App) :
  sourceNodes (flush st) = sourceNodes (stopSources st).
Proof. destruct st; reflexivity. Qed.

(** [flush] leaves everything but the scheduler's fields alone. *)
Lemma flush_frame (st : App) :
  session (flush st) = session st
  /\ transcriptions (flush st) = transcriptions st
  /\ transcriptionBufferRef (flush st) = transcriptionBufferRef st
  /\ micStream (flush st) = micStream st
  /\ sessionPromiseRef (flush st) = sessionPromiseRef st
  /\ inputAudioContextRef (flush st) = inputAudioContextRef st
  /\ outputAudioContextRef (flush st) = outputAudioContextRef st
  /\ mediaStreams (flush st) = mediaStreams st
  /\ audioContexts (flush st) = audioContexts st
  /\ liveSessions (flush st) = liveSessions st.
Proof. destruct st; cbn. repeat split. Qed.

Lemma flush_stops (st : App) (i : nat) (n : AudioBufferSourceNode) :
  i ∈ sourcesRef st -> sourceNodes st !! i = Some n ->
  sourceNodes (flush st) !! i = Some (stopNode n).
Proof.
  intros Hi Hn. rewrite flush_sourceNodes, stopSources_lookup, Hn. cbn.
  now rewrite bool_decide_eq_true_2.
Qed.

Lemma flush_flush (st : App) : flush (flush st) = flush st.
Proof.
  unfold flush at 1.
  rewrite (stopSources_empty (flush st) (flush_sourcesRef st)).
  destruct st; reflexivity.
Qed.

(** The scenario of section 8: a chunk of 4800 bytes (2400 samples at
    24 kHz) is started at 0 and moves [nextStartTime] to a tenth of a
    second; the interruption that follows empties the handle set and puts
    [nextStartTime] back to 0. *)
Example chunk_then_interrupted :
  let st0 := onopen (toggleSession Acquired initialApp) in
  let st1 := snd (@onmessage exampleAudio 0 0 0 (speechChunk (repeat 65%N 4800) false) st0) in
  let st2 := snd (@onmessage exampleAudio (1 # 20) 0 0 interruptedSignal st1) in
  startsSince 0 st1 = [Some 0%Q]
  /\ (nextStartTimeRef st1 == 1 # 10)%Q
  /\ sourcesRef st1 = {[0%nat]}
  /\ sourcesRef st2 = ∅
  /\ nextStartTimeRef st2 = 0%Q
  /\ (stopCalled <$> sourceNodes st2 !! 0%nat) = Some true.
Proof. vm_compute. repeat split; reflexivity. Qed.

(** ** What the playback steps leave alone *)

Lemma playbackOnly_refl (st : App) : playbackOnly st st.
Proof. unfold playbackOnly. repeat split. Qed.

Lemma playbackOnly_trans (a b c : App) :
  playbackOnly a b -> playbackOnly b c -> playbackOnly a c.
Proof.
  unfold playbackOnly. intros Hab Hbc.
  repeat match goal with H : _ /\ _ |- _ => destruct H as [? H] end.
  repeat split; etransitivity; eassumption.
Qed.

Lemma playbackOnly_sym (a b : App) : playbackOnly a b -> playbackOnly b a.
Proof.
  unfold playbackOnly. intros Hab.
  repeat match goal with H : _ /\ _ |- _ => destruct H as [? H] end.
  repeat split; symmetry; assumption.
Qed.

Lemma playbackOnly_flush (st : App) : playbackOnly st (flush st).
Proof. exact (flush_frame st). Qed.

Lemma playbackOnly_syncToClock (now : Q) (st : App) : playbackOnly st (syncToClock now st).
Proof. destruct st; unfold playbackOnly; cbn. repeat split. Qed.

Lemma playbackOnly_schedule (b : AudioBuffer) (st : App) : playbackOnly st (schedule b st).
Proof. destruct st; unfold playbackOnly; cbn. repeat split. Qed.

Lemma playbackOnly_handleInterruptions (message : LiveServerMessage) (st : App) :
  playbackOnly st (handleInterruptions message st).
Proof.
  unfold handleInterruptions.
  destruct (interrupted <$> serverContent message) as [[|]|];
    auto using playbackOnly_refl, playbackOnly_flush.
Qed.

Section Frames.
Context `{AudioProcessing}.

Lemma playbackOnly_handleAudioOutput (now : Q) (message : LiveServerMessage) (st : App) :
  playbackOnly st (snd (handleAudioOutput now message st)).
Proof.
  unfold handleAudioOutput.
  destruct (partsMissing message); [apply playbackOnly_refl|].
  destruct (base64Audio message) as [b64|]; [|apply playbackOnly_refl].
  destruct (outputAudioContextRef st); [|apply playbackOnly_refl].
  destruct (truthy b64); [|apply playbackOnly_refl].
  destruct (decodeAudioData (decode b64) 24000 1); cbn.
  - eapply playbackOnly_trans;
      [apply playbackOnly_syncToClock | apply playbackOnly_schedule].
  - apply playbackOnly_syncToClock.
Qed.

(** The transcript side of a message is settled by its first two steps. *)
Lemma onmessage_dialogue (now : Q) (tUser tModel : Z)
    (message : LiveServerMessage) (st : App) :
  playbackOnly
    (handleTurnComplete tUser tModel message (handleTranscription message st))
    (snd (onmessage now tUser tModel message st)).
Proof.
  unfold onmessage.
  set (st1 := handleTurnComplete tUser tModel message (handleTranscription message st)).
  pose proof (playbackOnly_handleAudioOutput now message st1) as Ha.
  destruct (handleAudioOutput now message st1) as [[|] st2]; cbn in *.
  - eapply playbackOnly_trans; [exact Ha | apply playbackOnly_handleInterruptions].
  - exact Ha.
Qed.

End Frames.

(** ** C3: entries of a turn *)

Lemma handleTurnComplete_entries (tUser tModel : Z) (message : LiveServerMessage) (st : App) :
  turnComplete <$> serverContent message = Some true ->
  transcriptions (handleTurnComplete tUser tModel message st)
  = transcriptions st
    ++ turnEntries tUser tModel (trim (user (transcriptionBufferRef st)))
                                (trim (model (transcriptionBufferRef st)))
  /\ transcriptionBufferRef (handleTurnComplete tUser tModel message st)
     = {| user := []; model := [] |}.
Proof.
  intros Ht. unfold handleTurnComplete, turnEntries. rewrite Ht.
  destruct (truthy (trim (user (transcriptionBufferRef st))));
    destruct (truthy (trim (model (transcriptionBufferRef st))));
    destruct st; cbn; rewrite ?app_nil_r; split; reflexivity.
Qed.

Section TurnAggregator.
Context `{AudioProcessing}.

(** C3.  A message with the turn-complete signal.  With the buffers as
    they stand when the signal is processed, the entries appended to the
    log are: one per role whose trimmed buffer is non-empty, carrying the
    trimmed text; none when both are empty after trimming; the user entry
    before the model entry, with a strictly smaller timestamp, when both
    are non-empty (the reading of [Date.now()] for the user entry is taken
    first).  Afterwards both buffers are empty. *)
Theorem turn_complete_entries (now : Q) (tUser tModel : Z)
    (message : LiveServerMessage) (st : App) :
  turnComplete <$> serverContent message = Some true ->
  tUser <= tModel ->
  let buf := transcriptionBufferRef (handleTranscription message st) in
  let st' := snd (onmessage now tUser tModel message st) in
  exists emitted : list Transcription,
    transcriptions st' = transcriptions st ++ emitted
    /\ (forall r : Role,
          length (filter (fun e => role e = r) emitted)
          = if truthy (trim (bufferOf r buf)) then 1%nat else 0%nat)
    /\ (forall e : Transcription,
          e ∈ emitted -> text e = trim (bufferOf (role e) buf) /\ text e <> [])
    /\ (trim (user buf) = [] -> trim (model buf) = [] -> emitted = [])
    /\ (trim (user buf) <> [] -> trim (model buf) <> [] ->
        exists eu em : Transcription,
          emitted = [eu; em]
          /\ role eu = role_user /\ role em = role_model
          /\ timestamp eu < timestamp em)
    /\ transcriptionBufferRef st' = {| user := []; model := [] |}.
Proof.
  intros Ht Hle buf st'.
  destruct (onmessage_dialogue now tUser tModel message st) as (_ & Htr & Hbuf & _).
  destruct (handleTurnComplete_entries tUser tModel message
              (handleTranscription message st) Ht) as [He Hb].
  assert (Hlog : transcriptions (handleTranscription message st) = transcriptions st).
  { unfold handleTranscription.
    destruct (serverContent message ≫= inputTranscription);
      destruct (serverContent message ≫= outputTranscription);
      destruct st; reflexivity. }
  exists (turnEntries tUser tModel (trim (user buf)) (trim (model buf))).
  split; [subst st'; rewrite Htr, He, Hlog; reflexivity|].
  split; [|split; [|split; [|split]]].
  - intros r. unfold turnEntries.
    destruct r; cbn [bufferOf];
      destruct (truthy (trim (user buf))), (truthy (trim (model buf))); reflexivity.
  - intros e. unfold turnEntries.
    destruct (truthy (trim (user buf))) eqn:Eu, (truthy (trim (model buf))) eqn:Em;
      cbn; intros Hin;
      repeat match goal with
             | H : _ ∈ _ :: _ |- _ => apply elem_of_cons in H; destruct H as [->|H]
             | H : _ ∈ [] |- _ => apply elem_of_nil in H; destruct H
             end; cbn; split; try reflexivity;
      intros E; rewrite E in *; discriminate.
  - intros Eu Em. unfold turnEntries. now rewrite Eu, Em.
  - intros Eu Em. unfold turnEntries.
    destruct (trim (user buf)) as [|cu u]; [congruence|].
    destruct (trim (model buf)) as [|cm m]; [congruence|].
    cbn. eexists _, _. split; [reflexivity|]. cbn. repeat split. lia.
  - subst st'. rewrite Hbuf. exact Hb.
Qed.

End TurnAggregator.

Lemma turn_complete_entries_witness :
  let st := @onmessages exampleAudio 0 1000
              [outputFragment "Hola"; inputFragment "Hello"; outputFragment " mundo"]
              (onopen (toggleSession Acquired initialApp)) in
  let st' := snd (@onmessage exampleAudio 0 2000 2000 turnCompleteSignal st) in
  exists eu em : Transcription,
    transcriptions st' = transcriptions st ++ [eu; em]
    /\ (role eu, text eu) = (role_user, lit "Hello")
    /\ (role em, text em) = (role_model, lit "Hola mundo")
    /\ timestamp eu < timestamp em
    /\ transcriptionBufferRef st' = {| user := []; model := [] |}.
Proof.
  intros st st'.
  destruct (@turn_complete_entries exampleAudio 0 2000 2000 turnCompleteSignal st
              eq_refl ltac:(lia))
    as (emitted & Hlog & _ & Htext & _ & Hboth & Hbuf).
  destruct Hboth as (eu & em & -> & Hu & Hm & Hlt); [discriminate | discriminate |].
  exists eu, em. split; [exact Hlog|].
  destruct (Htext eu ltac:(apply elem_of_cons; now left)) as [Htu _].
  destruct (Htext em ltac:(apply elem_of_cons; right; apply elem_of_cons; now left)) as [Htm _].
  rewrite Hu in Htu. rewrite Hm in Htm.
  split; [now rewrite Hu, Htu|]. split; [now rewrite Hm, Htm|].
  split; [exact Hlt | exact Hbuf].
Defined.

(** ** C10: a fragment and the turn boundary in one message *)

Lemma handleTranscription_buffer (c : LiveServerContent) (st : App) :
  transcriptionBufferRef (handleTranscription {| serverContent := Some c |} st)
  = {| user := user (transcriptionBufferRef st)
               ++ match inputTranscription c with Some t => fragment t | None => [] end;
       model := model (transcriptionBufferRef st)
                ++ match outputTranscription c with Some t => fragment t | None => [] end |}.
Proof.
  unfold handleTranscription. cbn.
  destruct (inputTranscription c), (outputTranscription c), st as [? ? ? ? ? ? ? ? [u m] ? ? ? ?];
    cbn; rewrite ?app_nil_r; reflexivity.
Qed.

Section SameMessage.
Context `{AudioProcessing}.

(** C10.  One message carrying a fragment for a role and the turn-complete
    signal: the fragment is appended to the role's buffer before the turn
    is closed.  The entry of that role in this turn carries the trimmed
    concatenation of the buffer and the fragment (there is such an entry
    whenever that text is non-empty), and the buffers are empty afterwards,
    so nothing of the fragment is left for the next turn. *)
Theorem fragment_joins_its_turn (now : Q) (tUser tModel : Z)
    (c : LiveServerContent) (st : App) :
  turnComplete c = true ->
  let buf := transcriptionBufferRef st in
  let st' := snd (onmessage now tUser tModel {| serverContent := Some c |} st) in
  exists emitted : list Transcription,
    transcriptions st' = transcriptions st ++ emitted
    /\ (forall t : LiveTranscription,
          inputTranscription c = Some t ->
          trim (user buf ++ fragment t) <> [] ->
          exists e : Transcription,
            e ∈ emitted /\ role e = role_user
            /\ text e = trim (user buf ++ fragment t))
    /\ (forall t : LiveTranscription,
          outputTranscription c = Some t ->
          trim (model buf ++ fragment t) <> [] ->
          exists e : Transcription,
            e ∈ emitted /\ role e = role_model
            /\ text e = trim (model buf ++ fragment t))
    /\ transcriptionBufferRef st' = {| user := []; model := [] |}.
Proof.
  intros Ht buf st'.
  destruct (onmessage_dialogue now tUser tModel {| serverContent := Some c |} st)
    as (_ & Htr & Hbuf & _).
  destruct (handleTurnComplete_entries tUser tModel {| serverContent := Some c |}
              (handleTranscription {| serverContent := Some c |} st))
    as [He Hb]; [cbn; now rewrite Ht|].
  rewrite handleTranscription_buffer in He. cbn [user model] in He.
  assert (Hlog : transcriptions (handleTranscription {| serverContent := Some c |} st)
                 = transcriptions st).
  { unfold handleTranscription. cbn.
    destruct (inputTranscription c), (outputTranscription c), st; reflexivity. }
  rewrite Hlog in He.
  eexists. split; [subst st'; rewrite Htr; exact He|].
  split; [|split].
  - intros t Et Hne. rewrite Et. fold buf. unfold turnEntries.
    destruct (trim (user buf ++ fragment t)) as [|cu u] eqn:E; [congruence|].
    cbn [truthy]. eexists. split; [apply elem_of_app; left; apply elem_of_cons; now left|].
    split; reflexivity.
  - intros t Et Hne. rewrite Et. fold buf. unfold turnEntries.
    destruct (trim (model buf ++ fragment t)) as [|cm m] eqn:E; [congruence|].
    cbn [truthy]. eexists. split; [apply elem_of_app; right; apply elem_of_cons; now left|].
    split; reflexivity.
  - subst st'. rewrite Hbuf. exact Hb.
Qed.

End SameMessage.

Lemma fragment_joins_its_turn_witness :
  let st := @onmessages exampleAudio 0 1000 [inputFragment "Good "]
              (onopen (toggleSession Acquired initialApp)) in
  let c := {| inputTranscription := Some {| transcriptionText := Some (lit "morning") |};
              outputTranscription := None; turnComplete := true;
              modelTurn := None; interrupted := false |} in
  let st' := snd (@onmessage exampleAudio 0 2000 2000 {| serverContent := Some c |} st) in
  exists emitted : list Transcription,
    transcriptions st' = transcriptions st ++ emitted
    /\ (exists e : Transcription,
          e ∈ emitted /\ role e = role_user /\ text e = lit "Good morning")
    /\ transcriptionBufferRef st' = {| user := []; model := [] |}.
Proof.
  intros st c st'.
  destruct (@fragment_joins_its_turn exampleAudio 0 2000 2000 c st eq_refl)
    as (emitted & Hlog & Hu & _ & Hbuf).
  exists emitted. split; [exact Hlog|]. split; [|exact Hbuf].
  apply (Hu {| transcriptionText := Some (lit "morning") |} eq_refl). discriminate.
Defined.

(** ** C9: an interruption touches the playback state only *)

Lemma handleTranscription_withInterrupted (flag : bool) (c : LiveServerContent) (st : App) :
  handleTranscription (withInterrupted flag c) st
  = handleTranscription {| serverContent := Some c |} st.
Proof. reflexivity. Qed.

Lemma handleTurnComplete_withInterrupted (flag : bool) (tUser tModel : Z)
    (c : LiveServerContent) (st : App) :
  handleTurnComplete tUser tModel (withInterrupted flag c) st
  = handleTurnComplete tUser tModel {| serverContent := Some c |} st.
Proof. reflexivity. Qed.

Section Interruption.
Context `{AudioProcessing}.

(** C9.  Processing an [interrupted] signal changes nothing but the
    playback state (node store, handle set, [nextStartTime]): the
    transcript buffers, the transcript log and the session record keep
    their values, as do the device references.  This holds for the flush
    itself, for a message that carries only the signal, and for the
    signal's share in any message: the states reached with and without the
    flag agree outside the playback state. *)
Theorem interrupted_touches_playback_only (now : Q) (tUser tModel : Z)
    (c : LiveServerContent) (st : App) :
  playbackOnly st (flush st)
  /\ onmessage now tUser tModel interruptedSignal st = (Fulfilled, flush st)
  /\ playbackOnly st (snd (onmessage now tUser tModel interruptedSignal st))
  /\ playbackOnly (snd (onmessage now tUser tModel (withInterrupted false c) st))
                  (snd (onmessage now tUser tModel (withInterrupted true c) st)).
Proof.
  split; [apply playbackOnly_flush|].
  split; [destruct st; reflexivity|].
  split; [destruct st; apply playbackOnly_flush|].
  eapply playbackOnly_trans.
  - apply playbackOnly_sym, onmessage_dialogue.
  - rewrite handleTranscription_withInterrupted, handleTurnComplete_withInterrupted.
    rewrite <- (handleTranscription_withInterrupted true),
            <- (handleTurnComplete_withInterrupted true).
    apply onmessage_dialogue.
Qed.

End Interruption.

(** ** Messages whose chunk does not decode *)

Lemma dialogueOnly_handleTranscription (message : LiveServerMessage) (st : App) :
  dialogueOnly st (handleTranscription message st).
Proof.
  unfold handleTranscription, dialogueOnly.
  destruct (serverContent message ≫= inputTranscription),
           (serverContent message ≫= outputTranscription), st; cbn; repeat split.
Qed.

Lemma dialogueOnly_handleTurnComplete (tUser tModel : Z) (message : LiveServerMessage) (st : App) :
  dialogueOnly st (handleTurnComplete tUser tModel message st).
Proof.
  unfold handleTurnComplete, dialogueOnly.
  destruct (turnComplete <$> serverContent message) as [[|]|];
    [|repeat split..].
  destruct (truthy (trim (user (transcriptionBufferRef st)))
            || truthy (trim (model (transcriptionBufferRef st))));
    destruct st; cbn; repeat split.
Qed.

Lemma syncToClock_fields (now : Q) (st : App) :
  nextStartTimeRef (syncToClock now st) = Math_max (nextStartTimeRef st) now
  /\ sourceNodes (syncToClock now st) = sourceNodes st
  /\ sourcesRef (syncToClock now st) = sourcesRef st.
Proof. destruct st; cbn. repeat split. Qed.

Section Rejection.
Context `{AudioProcessing}.

(** A message whose chunk does not decode: the handler is rejected after
    line 137. *)
Lemma onmessage_rejected (now : Q) (tUser tModel : Z) (message : LiveServerMessage)
    (st : App) (b64 : jsstring) (ctx : nat) :
  base64Audio message = Some b64 -> truthy b64 = true ->
  outputAudioContextRef st = Some ctx ->
  decodeAudioData (decode b64) 24000 1 = None ->
  let r := onmessage now tUser tModel message st in
  fst r = Rejected
  /\ sourceNodes (snd r) = sourceNodes st
  /\ sourcesRef (snd r) = sourcesRef st
  /\ nextStartTimeRef (snd r) = Math_max (nextStartTimeRef st) now
  /\ session (snd r) = session st
  /\ mediaStreams (snd r) = mediaStreams st
  /\ audioContexts (snd r) = audioContexts st
  /\ outputAudioContextRef (snd r) = Some ctx.
Proof.
  intros Hb Ht Hc Hd r.
  set (st1 := handleTurnComplete tUser tModel message (handleTranscription message st)).
  destruct (dialogueOnly_handleTranscription message st)
    as (Hs1 & _ & _ & _ & Ho1 & Hx1 & Hr1 & Hm1 & Ha1 & Hn1 & _).
  destruct (dialogueOnly_handleTurnComplete tUser tModel message
              (handleTranscription message st))
    as (Hs2 & _ & _ & _ & Ho2 & Hx2 & Hr2 & Hm2 & Ha2 & Hn2 & _).
  fold st1 in Hs2, Ho2, Hx2, Hr2, Hm2, Ha2, Hn2.
  assert (Hr : r = (Rejected, syncToClock now st1)).
  { subst r. unfold onmessage. fold st1.
    rewrite (handleAudioOutput_reject now message st1 b64 ctx);
      [reflexivity | exact Hb | exact Ht | | exact Hd].
    now rewrite Ho2, Ho1. }
  rewrite Hr. cbn [fst snd].
  destruct (syncToClock_fields now st1) as (Hx3 & Hn3 & Hr3).
  destruct (playbackOnly_syncToClock now st1)
    as (Hs3 & _ & _ & _ & _ & _ & Ho3 & Hm3 & Ha3 & _).
  repeat split; congruence.
Qed.

End Rejection.

(** ** C2: flush *)

Lemma handleInterruptions_flagged (message : LiveServerMessage) (st : App) :
  interrupted <$> serverContent message = Some true ->
  handleInterruptions message st = flush st.
Proof. intros Hi. unfold handleInterruptions. now rewrite Hi. Qed.

Section Interrupted.
Context `{AudioProcessing}.

(** The audio block keeps the nodes and the handles that are there. *)
Lemma handleAudioOutput_keeps (now : Q) (message : LiveServerMessage) (st : App) :
  sourcesRef st ⊆ sourcesRef (snd (handleAudioOutput now message st))
  /\ forall (i : nat) (n : AudioBufferSourceNode),
       sourceNodes st !! i = Some n ->
       sourceNodes (snd (handleAudioOutput now message st)) !! i = Some n.
Proof.
  unfold handleAudioOutput.
  destruct (partsMissing message); [now split|].
  destruct (base64Audio message) as [b64|]; [|now split].
  destruct (outputAudioContextRef st) as [ctx|]; [|now split].
  destruct (truthy b64); [|now split].
  destruct (syncToClock_fields now st) as (_ & Hn & Hr).
  destruct (decodeAudioData (decode b64) 24000 1) as [b|]; cbn [snd].
  - change (schedule b (syncToClock now st)) with (enqueue now b st).
    rewrite enqueue_sourceNodes, enqueue_sourcesRef. split.
    + intros x Hx. apply elem_of_union. now left.
    + intros i n Hi. rewrite lookup_app_l; [exact Hi | now apply lookup_lt_Some in Hi].
  - rewrite Hn, Hr. now split.
Qed.

(** The flush of a flagged message is skipped only when line 134 or the
    decoder throws. *)
Lemma onmessage_rejected_inv (now : Q) (tUser tModel : Z)
    (message : LiveServerMessage) (st : App) :
  fst (onmessage now tUser tModel message st) = Rejected ->
  partsMissing message = true
  \/ exists b64 : jsstring,
       base64Audio message = Some b64 /\ decodeAudioData (decode b64) 24000 1 = None.
Proof.
  unfold onmessage.
  set (st1 := handleTurnComplete tUser tModel message (handleTranscription message st)).
  unfold handleAudioOutput.
  destruct (partsMissing message); [now left|]. right.
  destruct (base64Audio message) as [b64|]; [|discriminate].
  destruct (outputAudioContextRef st1); [|discriminate].
  destruct (truthy b64); [|discriminate].
  destruct (decodeAudioData (decode b64) 24000 1) eqn:Ed; [discriminate|].
  now exists b64.
Qed.

(** C2.  Processing an interruption stops every handle of the set, leaves
    the set empty and [nextStartTime] at 0.  Flushing twice is flushing
    once; with an empty set no node is touched; and an enqueue after a flush
    gets the start time, the [nextStartTime] and the one-handle set it gets
    in the state the component starts in.  This flush is what [onmessage]
    runs for a message flagged [interrupted] (lines 153-158): when the
    handler run is fulfilled, every handle that was in the set is stopped,
    the set is empty and [nextStartTime] is 0; the handler run is fulfilled
    unless line 134 or the decoder throws before the flush is reached. *)
Theorem flush_resets_scheduler (st : App) :
  (forall (i : nat) (n : AudioBufferSourceNode),
      i ∈ sourcesRef st -> sourceNodes st !! i = Some n ->
      sourceNodes (flush st) !! i = Some (stopNode n)
      /\ stopCalled (stopNode n) = true)
  /\ (forall i : nat, i ∉ sourcesRef st ->
        sourceNodes (flush st) !! i = sourceNodes st !! i)
  /\ sourcesRef (flush st) = ∅
  /\ nextStartTimeRef (flush st) = 0%Q
  /\ flush (flush st) = flush st
  /\ (sourcesRef st = ∅ -> flush st = set_nextStartTimeRef 0%Q st)
  /\ (forall (now : Q) (b : AudioBuffer),
        startsSince (length (sourceNodes (flush st))) (enqueue now b (flush st))
        = startsSince (length (sourceNodes initialApp)) (enqueue now b initialApp)
        /\ nextStartTimeRef (enqueue now b (flush st))
           = nextStartTimeRef (enqueue now b initialApp)
        /\ sourcesRef (enqueue now b (flush st)) = {[length (sourceNodes (flush st))]}
        /\ sourcesRef (enqueue now b initialApp) = {[length (sourceNodes initialApp)]})
  /\ (forall message : LiveServerMessage,
        interrupted <$> serverContent message = Some true ->
        handleInterruptions message st = flush st)
  /\ (forall (now : Q) (tUser tModel : Z),
        onmessage now tUser tModel interruptedSignal st = (Fulfilled, flush st))
  /\ (forall (now : Q) (tUser tModel : Z) (message : LiveServerMessage),
        interrupted <$> serverContent message = Some true ->
        let r := onmessage now tUser tModel message st in
        (fst r = Fulfilled ->
         sourcesRef (snd r) = ∅
         /\ nextStartTimeRef (snd r) = 0%Q
         /\ forall (i : nat) (n : AudioBufferSourceNode),
              i ∈ sourcesRef st -> sourceNodes st !! i = Some n ->
              sourceNodes (snd r) !! i = Some (stopNode n))
        /\ (fst r = Rejected ->
            partsMissing message = true
            \/ exists b64 : jsstring,
                 base64Audio message = Some b64
                 /\ decodeAudioData (decode b64) 24000 1 = None)).
Proof.
  repeat apply conj.
  - intros i n Hi Hn. split; [|reflexivity]. now apply flush_stops.
  - intros i Hi.
    rewrite flush_sourceNodes, stopSources_lookup.
    destruct (sourceNodes st !! i); cbn; [|reflexivity].
    now rewrite bool_decide_eq_false_2.
  - apply flush_sourcesRef.
  - apply flush_nextStartTimeRef.
  - apply flush_flush.
  - intros He. unfold flush. rewrite (stopSources_empty st He).
    rewrite <- He. destruct st; reflexivity.
  - intros now b.
    rewrite (startsSince_app _ _ _ (enqueue_sourceNodes now b (flush st))).
    rewrite (startsSince_app _ _ _ (enqueue_sourceNodes now b initialApp)).
    rewrite !enqueue_nextStartTimeRef, !enqueue_sourcesRef.
    rewrite flush_nextStartTimeRef, flush_sourcesRef.
    split; [reflexivity|]. split; [reflexivity|].
    split; apply (left_id_L ∅ (∪)).
  - intros message. apply handleInterruptions_flagged.
  - intros now tUser tModel. destruct st; reflexivity.
  - intros now tUser tModel message Hi r.
    split; [|subst r; apply onmessage_rejected_inv].
    intros Hf. subst r. unfold onmessage in *.
    set (st1 := handleTurnComplete tUser tModel message (handleTranscription message st))
      in *.
    destruct (dialogueOnly_handleTranscription message st)
      as (_ & _ & _ & _ & _ & _ & Hr1 & _ & _ & Hn1 & _).
    destruct (dialogueOnly_handleTurnComplete tUser tModel message
                (handleTranscription message st))
      as (_ & _ & _ & _ & _ & _ & Hr2 & _ & _ & Hn2 & _).
    fold st1 in Hr2, Hn2.
    destruct (handleAudioOutput_keeps now message st1) as [Hsub Hkeep].
    destruct (handleAudioOutput now message st1) as [[|] st2]; [|discriminate].
    cbn [snd] in *. rewrite (handleInterruptions_flagged message st2 Hi).
    split; [apply flush_sourcesRef|]. split; [apply flush_nextStartTimeRef|].
    intros i n Hin Hn. apply flush_stops.
    + apply Hsub. rewrite Hr2, Hr1. exact Hin.
    + apply Hkeep. rewrite Hn2, Hn1. exact Hn.
Qed.

End Interrupted.

Lemma flush_resets_scheduler_witness :
  sourceNodes (flush (runningSession 0 (1 # 10))) !! 0%nat
  = Some {| buffer := tone (1 # 10); startWhen := Some 0%Q; stopCalled := true |}
  /\ flush (initialApp) = set_nextStartTimeRef 0%Q initialApp
  /\ (let r := @onmessage exampleAudio (1 # 20) 0 0 (speechChunk (repeat 65%N 8) true)
                 (runningSession 0 (1 # 10)) in
      sourcesRef (snd r) = ∅
      /\ nextStartTimeRef (snd r) = 0%Q
      /\ sourceNodes (snd r) !! 0%nat
         = Some {| buffer := tone (1 # 10); startWhen := Some 0%Q; stopCalled := true |}).
Proof.
  split; [|split].
  - apply (proj1 (@flush_resets_scheduler exampleAudio (runningSession 0 (1 # 10))) 0%nat
             {| buffer := tone (1 # 10); startWhen := Some 0%Q; stopCalled := false |}).
    + vm_compute. reflexivity.
    + reflexivity.
  - apply (proj1 (proj2 (proj2 (proj2 (proj2 (proj2
             (@flush_resets_scheduler exampleAudio initialApp))))))).
    reflexivity.
  - intros r.
    destruct (proj1 (proj2 (proj2 (proj2 (proj2 (proj2 (proj2 (proj2 (proj2 (proj2
                (@flush_resets_scheduler exampleAudio (runningSession 0 (1 # 10)))))))))))
                (1 # 20)%Q 0 0 (speechChunk (repeat 65%N 8) true) eq_refl) eq_refl)
      as (Hs & Hx & Hn).
    split; [exact Hs|]. split; [exact Hx|].
    apply (Hn 0%nat {| buffer := tone (1 # 10); startWhen := Some 0%Q;
                       stopCalled := false |}).
    + vm_compute. reflexivity.
    + reflexivity.
Defined.

(** ** C7: the chunk decoder *)


Lemma list_pair_ind {A : Type} (P : list A -> Prop) :
  P [] -> (forall a, P [a]) -> (forall a b l, P l -> P (a :: b :: l)) ->
  forall l, P l.
Proof.
  intros H0 H1 H2 l.
  enough (P l /\ forall a, P (a :: l)) by tauto.
  induction l as [|x l [IHl IHc]]; split; auto.
Qed.

Lemma int16s_length (payload : list Byte.byte) :
  length (ChunkDecoder.int16s payload) = (length payload / 2)%nat.
Proof.
  induction payload as [| a | a b l IH] using list_pair_ind; [reflexivity..|].
  cbn [ChunkDecoder.int16s length]. rewrite IH.
  change (S (S (length l))) with (1 * 2 + length l)%nat.
  rewrite Nat.div_add_l by discriminate. reflexivity.
Qed.

Lemma int16s_lookup (payload : list Byte.byte) :
  forall (i : nat) (lo hi : Byte.byte),
    payload !! (2 * i)%nat = Some lo -> payload !! (2 * i + 1)%nat = Some hi ->
    ChunkDecoder.int16s payload !! i = Some (ChunkDecoder.int16_of_bytes lo hi).
Proof.
  induction payload as [| a | a b l IH] using list_pair_ind; intros i lo hi Hlo Hhi.
  - discriminate.
  - destruct i as [|i]; [discriminate|].
    replace (2 * S i)%nat with (S (S (2 * i))) in Hlo by lia. discriminate.
  - destruct i as [|i].
    + cbn in Hlo, Hhi. now inversion Hlo; inversion Hhi.
    + replace (2 * S i)%nat with (S (S (2 * i))) in Hlo by lia.
      replace (2 * S i + 1)%nat with (S (S (2 * i + 1))) in Hhi by lia.
      cbn in Hlo, Hhi. cbn [ChunkDecoder.int16s]. exact (IH i lo hi Hlo Hhi).
Qed.

Lemma int16_of_bytes_range (lo hi : Byte.byte) :
  -32768 <= ChunkDecoder.int16_of_bytes lo hi <= 32767.
Proof.
  unfold ChunkDecoder.int16_of_bytes.
  pose proof (Byte.to_N_bounded lo). pose proof (Byte.to_N_bounded hi).
  destruct (Z.ltb_spec (Z.of_N (Byte.to_N lo) + 256 * Z.of_N (Byte.to_N hi)) 32768); lia.
Qed.

Section WithoutChunk.
Context `{AudioProcessing}.

(** A message without its chunk: the transcript part and the interruption
    are handled as for the message itself, and the audio block does
    nothing. *)
Lemma onmessage_withoutChunk (now : Q) (tUser tModel : Z)
    (message : LiveServerMessage) (st : App) :
  onmessage now tUser tModel (withoutChunk message) st
  = (Fulfilled,
     handleInterruptions message
       (handleTurnComplete tUser tModel message (handleTranscription message st))).
Proof. destruct message as [[c|]]; reflexivity. Qed.

End WithoutChunk.

(** C7, as stated, fails: a decode failure drops more than the chunk.  The
    message carries a chunk of three bytes and the [interrupted] flag; the
    handler is rejected at line 139, the handle stays in the set and its
    node is not stopped, whereas the same message without the chunk flushes
    the scheduler. *)
Lemma decode_failure_skips_interruption :
  let st := runningSession 0 (1 # 10) in
  let message := speechChunk [1; 2; 3]%N true in
  let r := @onmessage exampleAudio (1 # 20) 0 0 message st in
  let r0 := @onmessage exampleAudio (1 # 20) 0 0 (withoutChunk message) st in
  @decodeAudioData exampleAudio (@decode exampleAudio [1; 2; 3]%N) 24000 1 = None
  /\ fst r = Rejected
  /\ sourcesRef (snd r) = {[0%nat]}
  /\ (stopCalled <$> sourceNodes (snd r) !! 0%nat) = Some false
  /\ fst r0 = Fulfilled
  /\ sourcesRef (snd r0) = ∅
  /\ (stopCalled <$> sourceNodes (snd r0) !! 0%nat) = Some true
  /\ sourcesRef (snd r) <> sourcesRef (snd r0).
Proof. vm_compute. repeat split; discriminate. Qed.

(** C7, amended.  The chunk decoder of the spec on a payload of bytes: it
    fails exactly when the payload is empty or its length is not a multiple
    of 2; otherwise the buffer has [length / 2] samples, the [i]-th being
    the 16-bit signed integer in bytes [2i], [2i+1] divided by 32768, and
    its duration is the sample count divided by the sample rate.  In
    [onmessage] a chunk that fails to decode rejects the handler run at
    line 139.  The session is not terminated: the session record and the
    devices are as before and the output context stays in place.  The chunk
    is dropped: no node is created and no handle is added.  The transcript
    part of the message has been handled, and [nextStartTime] is
    [max(nextStartTime, currentOutputClock)].  The rest of the run is
    dropped with the chunk: for a message without the [interrupted] flag the
    state is that of the same message without its chunk, up to
    [nextStartTime]; for a message with the flag the flush is not run, and
    the handle set stays as it was. *)
Theorem chunk_decoder_spec (payload : list Byte.byte) (sampleRate numChannels : Z) :
  (ChunkDecoder.decodeAudioData payload sampleRate numChannels = None
   <-> payload = [] \/ ~ Nat.Even (length payload))
  /\ (forall buf : AudioBuffer,
        ChunkDecoder.decodeAudioData payload sampleRate numChannels = Some buf ->
        length (channelData buf) = (length payload / 2)%nat
        /\ (forall (i : nat) (lo hi : Byte.byte),
              payload !! (2 * i)%nat = Some lo -> payload !! (2 * i + 1)%nat = Some hi ->
              -32768 <= ChunkDecoder.int16_of_bytes lo hi <= 32767
              /\ channelData buf !! i
                 = Some (inject_Z (ChunkDecoder.int16_of_bytes lo hi) / 32768)%Q)
        /\ duration buf
           = (inject_Z (Z.of_nat (length (channelData buf))) / inject_Z sampleRate)%Q)
  /\ (forall (dec : jsstring -> list Byte.byte) (now : Q) (tUser tModel : Z)
             (message : LiveServerMessage) (st : App) (b64 : jsstring) (ctx : nat),
        base64Audio message = Some b64 -> truthy b64 = true ->
        outputAudioContextRef st = Some ctx ->
        dec b64 = payload ->
        ChunkDecoder.decodeAudioData payload 24000 1 = None ->
        let r := @onmessage (specAudioProcessing dec) now tUser tModel message st in
        let r0 := @onmessage (specAudioProcessing dec) now tUser tModel
                    (withoutChunk message) st in
        fst r = Rejected
        /\ sourceNodes (snd r) = sourceNodes st
        /\ sourcesRef (snd r) = sourcesRef st
        /\ session (snd r) = session st
        /\ mediaStreams (snd r) = mediaStreams st
        /\ audioContexts (snd r) = audioContexts st
        /\ outputAudioContextRef (snd r) = Some ctx
        /\ nextStartTimeRef (snd r) = Math_max (nextStartTimeRef st) now
        /\ transcriptions (snd r) = transcriptions (snd r0)
        /\ transcriptionBufferRef (snd r) = transcriptionBufferRef (snd r0)
        /\ (interrupted <$> serverContent message <> Some true ->
            snd r = syncToClock now (snd r0))
        /\ (interrupted <$> serverContent message = Some true ->
            fst r0 = Fulfilled
            /\ sourcesRef (snd r0) = ∅ /\ nextStartTimeRef (snd r0) = 0%Q)).
Proof.
  split; [|split].
  - unfold ChunkDecoder.decodeAudioData.
    destruct payload as [|b p]; [cbn; intuition|].
    cbn [length Nat.eqb orb].
    destruct (Nat.even (S (length p))) eqn:E; cbn [negb].
    + apply Nat.even_spec in E. split; [discriminate|].
      intros [?|Hn]; [discriminate | contradiction].
    + split; [|reflexivity]. intros _. right. intros Hev.
      apply Nat.even_spec in Hev. congruence.
  - intros buf Hd. unfold ChunkDecoder.decodeAudioData in Hd.
    destruct ((length payload =? 0)%nat || negb (Nat.even (length payload))); [discriminate|].
    inversion Hd; subst buf; clear Hd. cbn [channelData duration].
    split; [|split].
    + rewrite length_map. apply int16s_length.
    + intros i lo hi Hlo Hhi. split; [apply int16_of_bytes_range|].
      rewrite list_lookup_fmap, (int16s_lookup payload i lo hi Hlo Hhi). reflexivity.
    + reflexivity.
  - intros dec now tUser tModel message st b64 ctx Hb Ht Hc Hp Hd r r0.
    assert (Hdec : @decodeAudioData (specAudioProcessing dec)
                     (@decode (specAudioProcessing dec) b64) 24000 1 = None)
      by (cbn; rewrite Hp; exact Hd).
    destruct (@onmessage_rejected (specAudioProcessing dec) now tUser tModel message st
                b64 ctx Hb Ht Hc Hdec) as (H1 & H2 & H3 & H4 & H5 & H6 & H7 & H8).
    fold r in H1, H2, H3, H4, H5, H6, H7, H8.
    set (st1 := handleTurnComplete tUser tModel message (handleTranscription message st)).
    assert (Hr : r = (Rejected, syncToClock now st1)).
    { subst r. unfold onmessage. fold st1.
      rewrite (@handleAudioOutput_reject (specAudioProcessing dec) now message st1 b64 ctx
                 Hb Ht); [reflexivity | | exact Hdec].
      destruct (dialogueOnly_handleTranscription message st)
        as (_ & _ & _ & _ & Ho1 & _).
      destruct (dialogueOnly_handleTurnComplete tUser tModel message
                  (handleTranscription message st)) as (_ & _ & _ & _ & Ho2 & _).
      subst st1. now rewrite Ho2, Ho1. }
    assert (Hr0 : r0 = (Fulfilled, handleInterruptions message st1)).
    { subst r0 st1. apply (@onmessage_withoutChunk (specAudioProcessing dec)). }
    destruct (playbackOnly_syncToClock now st1) as (_ & Htr & Hbuf & _).
    destruct (playbackOnly_handleInterruptions message st1) as (_ & Htr0 & Hbuf0 & _).
    repeat split; try assumption.
    + rewrite Hr, Hr0. cbn [snd]. congruence.
    + rewrite Hr, Hr0. cbn [snd]. congruence.
    + intros Hn. rewrite Hr, Hr0. cbn [snd]. unfold handleInterruptions.
      destruct (interrupted <$> serverContent message) as [[|]|];
        [now contradiction Hn | reflexivity | reflexivity].
    + now rewrite Hr0.
    + rewrite Hr0. cbn [snd]. rewrite (handleInterruptions_flagged message st1);
        [apply flush_sourcesRef | assumption].
    + rewrite Hr0. cbn [snd]. rewrite (handleInterruptions_flagged message st1);
        [apply flush_nextStartTimeRef | assumption].
Qed.

Lemma chunk_decoder_spec_witness :
  ChunkDecoder.decodeAudioData [Byte.x01; Byte.x02; Byte.x03] 24000 1 = None
  /\ (forall buf : AudioBuffer,
        ChunkDecoder.decodeAudioData [Byte.x00; Byte.x80; Byte.xff; Byte.x7f] 24000 1 = Some buf ->
        length (channelData buf) = 2%nat
        /\ channelData buf !! 1%nat = Some (inject_Z 32767 / 32768)%Q)
  /\ (let r := @onmessage exampleAudio 0 0 0 (speechChunk [1; 2; 3]%N false)
                 (runningSession 0 (1 # 10)) in
      let r0 := @onmessage exampleAudio 0 0 0 (withoutChunk (speechChunk [1; 2; 3]%N false))
                  (runningSession 0 (1 # 10)) in
      fst r = Rejected /\ snd r = syncToClock 0 (snd r0)).
Proof.
  split; [|split].
  - apply (proj1 (chunk_decoder_spec [Byte.x01; Byte.x02; Byte.x03] 24000 1)).
    right. intros [k Hk]. cbn in Hk. lia.
  - intros buf Hbuf.
    destruct (proj1 (proj2 (chunk_decoder_spec
                              [Byte.x00; Byte.x80; Byte.xff; Byte.x7f] 24000 1)) buf Hbuf)
      as (Hlen & Hnth & _).
    split; [exact Hlen|].
    exact (proj2 (Hnth 1%nat Byte.xff Byte.x7f eq_refl eq_refl)).
  - intros r r0.
    destruct (proj2 (proj2 (chunk_decoder_spec [Byte.x01; Byte.x02; Byte.x03] 24000 1))
                bytesOfUnits 0%Q 0 0 (speechChunk [1; 2; 3]%N false)
                (runningSession 0 (1 # 10)) [1; 2; 3]%N 1%nat
                eq_refl eq_refl eq_refl eq_refl eq_refl)
      as (H1 & _ & _ & _ & _ & _ & _ & _ & _ & _ & H11 & _).
    split; [exact H1|]. apply H11. discriminate.
Defined.

(** ** C8: the frame encoder *)

Lemma byte_of_Z_to_N (z : Z) : Z.of_N (Byte.to_N (FrameEncoder.byte_of_Z z)) = z mod 256.
Proof.
  unfold FrameEncoder.byte_of_Z.
  pose proof (Z.mod_pos_bound z 256 eq_refl) as Hb.
  destruct (Byte.of_N (Z.to_N (z mod 256))) as [b|] eqn:E.
  - apply Byte.to_of_N in E. rewrite E. lia.
  - apply Byte.of_N_None_iff in E. lia.
Qed.

(** Writing a 16-bit signed integer low byte first and reading it back. *)
Lemma int16_bytes_roundtrip (v : Z) :
  -32768 <= v <= 32767 ->
  ChunkDecoder.int16_of_bytes (FrameEncoder.byte_of_Z v) (FrameEncoder.byte_of_Z (v / 256)) = v.
Proof.
  intros Hv. unfold ChunkDecoder.int16_of_bytes.
  rewrite !byte_of_Z_to_N.
  rewrite <- (Z.rem_mul_r v 256 256) by lia.
  change (256 * 256) with 65536.
  destruct (Z.lt_ge_cases v 0) as [Hneg|Hpos].
  - assert (E : v mod 65536 = v + 65536).
    { symmetry. apply (Z.mod_unique v 65536 (-1)); lia. }
    rewrite E. destruct (Z.ltb_spec (v + 65536) 32768); lia.
  - rewrite Z.mod_small by lia.
    destruct (Z.ltb_spec v 32768); lia.
Qed.

Lemma clamp_range (x : Q) : (-1 <= FrameEncoder.clamp x <= 1)%Q.
Proof.
  unfold FrameEncoder.clamp.
  destruct (Qle_bool x (-1)) eqn:E1; [split; discriminate|].
  destruct (Qle_bool 1 x) eqn:E2; [split; discriminate|].
  split.
  - apply Qlt_le_weak, Qnot_le_lt. intros Hle. apply Qle_bool_iff in Hle. congruence.
  - apply Qlt_le_weak, Qnot_le_lt. intros Hle. apply Qle_bool_iff in Hle. congruence.
Qed.

Lemma clamp_inside (x : Q) : (-1 <= x <= 1)%Q -> (FrameEncoder.clamp x == x)%Q.
Proof.
  intros [Hlo Hhi]. unfold FrameEncoder.clamp.
  destruct (Qle_bool x (-1)) eqn:E1.
  - apply Qle_bool_iff in E1. now apply Qle_antisym.
  - destruct (Qle_bool 1 x) eqn:E2; [|reflexivity].
    apply Qle_bool_iff in E2. now apply Qle_antisym.
Qed.

Lemma encodeSample_range (x : Q) : -32767 <= FrameEncoder.encodeSample x <= 32767.
Proof.
  unfold FrameEncoder.encodeSample, FrameEncoder.round.
  destruct (clamp_range x) as [Hlo Hhi].
  set (c := FrameEncoder.clamp x) in *.
  split.
  - change (-32767) with (Qfloor (inject_Z (-32767))). apply Qfloor_resp_le.
    apply Qle_trans with (c * 32767)%Q.
    + change (inject_Z (-32767)) with ((-1) * 32767)%Q.
      apply Qmult_le_compat_r; [exact Hlo | discriminate].
    + rewrite <- (Qplus_0_r (c * 32767)) at 1.
      apply Qplus_le_r. discriminate.
  - change 32767 with (Qfloor (32767 + (1 # 2))%Q) at 2. apply Qfloor_resp_le.
    apply Qplus_le_l.
    change (c * 32767 <= 1 * 32767)%Q.
    apply Qmult_le_compat_r; [exact Hhi | discriminate].
Qed.

Lemma round_nearest (y : Q) :
  (inject_Z (FrameEncoder.round y) <= y + (1 # 2)
   /\ y + (1 # 2) < inject_Z (FrameEncoder.round y + 1))%Q.
Proof. unfold FrameEncoder.round. split; [apply Qfloor_le | apply Qlt_floor]. Qed.

Lemma createBlob_samples (inputData : list Q) :
  ChunkDecoder.int16s (FrameEncoder.createBlob inputData)
  = map FrameEncoder.encodeSample inputData.
Proof.
  induction inputData as [|x l IH]; [reflexivity|].
  cbn [FrameEncoder.createBlob flat_map FrameEncoder.int16_bytes app
       ChunkDecoder.int16s map].
  fold (FrameEncoder.createBlob l). rewrite IH. f_equal.
  apply int16_bytes_roundtrip.
  pose proof (encodeSample_range x). lia.
Qed.

Lemma createBlob_length (inputData : list Q) :
  length (FrameEncoder.createBlob inputData) = (2 * length inputData)%nat.
Proof.
  induction inputData as [|x l IH]; [reflexivity|].
  cbn [FrameEncoder.createBlob flat_map FrameEncoder.int16_bytes app length].
  fold (FrameEncoder.createBlob l). rewrite IH. lia.
Qed.

(** C8.  The frame encoder of the spec on [N] samples (finite numbers, as
    rationals): the frame has [N] 16-bit samples, that is [2N] bytes; read
    back as little-endian signed 16-bit integers it is the list of
    [round(clamp(x,-1,1) * 32767)], sample by sample; every such value is a
    16-bit signed integer; [clamp] keeps values of [-1, 1] and [round] is
    the nearest integer. *)
Theorem frame_encoder_spec (inputData : list Q) :
  length (FrameEncoder.createBlob inputData) = (2 * length inputData)%nat
  /\ length (ChunkDecoder.int16s (FrameEncoder.createBlob inputData)) = length inputData
  /\ (forall (i : nat) (x : Q),
        inputData !! i = Some x ->
        ChunkDecoder.int16s (FrameEncoder.createBlob inputData) !! i
        = Some (FrameEncoder.round (FrameEncoder.clamp x * 32767)%Q)
        /\ -32768 <= FrameEncoder.round (FrameEncoder.clamp x * 32767)%Q <= 32767
        /\ (-1 <= FrameEncoder.clamp x <= 1)%Q
        /\ ((-1 <= x <= 1)%Q -> (FrameEncoder.clamp x == x)%Q))
  /\ (forall y : Q,
        (inject_Z (FrameEncoder.round y) <= y + (1 # 2)
         /\ y + (1 # 2) < inject_Z (FrameEncoder.round y + 1))%Q).
Proof.
  split; [apply createBlob_length|].
  split; [now rewrite createBlob_samples, length_map|].
  split; [|apply round_nearest].
  intros i x Hx. split; [|split; [|split]].
  - rewrite createBlob_samples, list_lookup_fmap, Hx. reflexivity.
  - pose proof (encodeSample_range x) as Hr.
    unfold FrameEncoder.encodeSample in Hr. lia.
  - apply clamp_range.
  - apply clamp_inside.
Qed.

Lemma frame_encoder_spec_witness :
  ChunkDecoder.int16s (FrameEncoder.createBlob [1 # 2; -3; 0]%Q) !! 0%nat = Some 16384
  /\ (FrameEncoder.clamp (1 # 2) == 1 # 2)%Q.
Proof.
  destruct (proj1 (proj2 (proj2 (frame_encoder_spec [1 # 2; -3; 0]%Q))) 0%nat (1 # 2)%Q eq_refl)
    as (Hs & _ & _ & Hc).
  split; [exact Hs|].
  apply Hc. split; discriminate.
Defined.

(** ** C6: zero-duration and undecodable buffers *)

(** C6, as stated, fails.  A zero-duration buffer is scheduled and
    registered like any other, and [nextStartTime] moves up to the output
    clock; a chunk that does not decode also leaves [nextStartTime] moved. *)
Lemma enqueue_degenerate_not_noop :
  let st := onopen (toggleSession Acquired initialApp) in
  sourceNodes (enqueue 5 (tone 0) st) <> sourceNodes st
  /\ sourcesRef (enqueue 5 (tone 0) st) <> sourcesRef st
  /\ nextStartTimeRef (enqueue 5 (tone 0) st) <> nextStartTimeRef st
  /\ nextStartTimeRef (snd (@onmessage exampleAudio 5 0 0 (speechChunk [1; 2; 3]%N false) st))
     <> nextStartTimeRef st.
Proof.
  cbn. repeat split; discriminate.
Qed.

(** C6, amended.  A chunk that does not decode schedules nothing and
    registers no handle, the session record is as before, and
    [nextStartTime] is [max(nextStartTime, currentOutputClock)].  A decoded
    buffer of zero duration is enqueued like any other: started at
    [max(nextStartTime, currentOutputClock)], registered in the handle set,
    with [nextStartTime] equal to that start time. *)
Theorem enqueue_degenerate_buffers :
  (forall (AP : AudioProcessing) (now : Q) (tUser tModel : Z) (message : LiveServerMessage)
          (st : App) (b64 : jsstring) (ctx : nat),
      base64Audio message = Some b64 -> truthy b64 = true ->
      outputAudioContextRef st = Some ctx ->
      decodeAudioData (decode b64) 24000 1 = None ->
      let r := onmessage now tUser tModel message st in
      fst r = Rejected
      /\ sourceNodes (snd r) = sourceNodes st
      /\ sourcesRef (snd r) = sourcesRef st
      /\ nextStartTimeRef (snd r) = Math_max (nextStartTimeRef st) now
      /\ session (snd r) = session st)
  /\ (forall (now : Q) (b : AudioBuffer) (st : App),
        (duration b == 0)%Q ->
        startsSince (length (sourceNodes st)) (enqueue now b st)
        = [Some (Math_max (nextStartTimeRef st) now)]
        /\ sourcesRef (enqueue now b st) = sourcesRef st ∪ {[length (sourceNodes st)]}
        /\ (nextStartTimeRef (enqueue now b st) == Math_max (nextStartTimeRef st) now)%Q).
Proof.
  split.
  - intros AP now tUser tModel message st b64 ctx Hb Ht Hc Hd r.
    destruct (onmessage_rejected now tUser tModel message st b64 ctx Hb Ht Hc Hd)
      as (H1 & H2 & H3 & H4 & H5 & _).
    repeat split; assumption.
  - intros now b st Hz. split; [|split].
    + rewrite (startsSince_app _ _ _ (enqueue_sourceNodes now b st)). reflexivity.
    + apply enqueue_sourcesRef.
    + rewrite enqueue_nextStartTimeRef, Hz. apply Qplus_0_r.
Qed.

Lemma enqueue_degenerate_buffers_witness :
  let st := onopen (toggleSession Acquired initialApp) in
  (fst (@onmessage exampleAudio 5 0 0 (speechChunk [1; 2; 3]%N false) st) = Rejected
   /\ sourcesRef (snd (@onmessage exampleAudio 5 0 0 (speechChunk [1; 2; 3]%N false) st))
      = sourcesRef st)
  /\ startsSince (length (sourceNodes st)) (enqueue 5 (tone 0) st) = [Some 5%Q].
Proof.
  intros st. split.
  - destruct (proj1 enqueue_degenerate_buffers exampleAudio 5%Q 0 0
                (speechChunk [1; 2; 3]%N false) st [1; 2; 3]%N 1%nat
                eq_refl eq_refl eq_refl eq_refl) as (H1 & _ & H3 & _).
    split; [exact H1 | exact H3].
  - apply (proj2 enqueue_degenerate_buffers 5%Q (tone 0) st). reflexivity.
Defined.

(** ** C4, C5: release of the devices *)

Lemma existsb_lookup_false {A : Type} (f : A -> bool) (l : list A) :
  (forall (i : nat) (x : A), l !! i = Some x -> f x = false) -> existsb f l = false.
Proof.
  intros Hall. destruct (existsb f l) eqn:E; [|reflexivity].
  apply existsb_exists in E as (x & Hin & Hf).
  apply list_elem_of_In, list_elem_of_lookup in Hin as [i Hi].
  rewrite (Hall i x Hi) in Hf. discriminate.
Qed.

Lemma cleanupAudio_fields (st : App) :
  mediaStreams (cleanupAudio st)
  = match micStream st with
    | Some m => alter stopTracks m (mediaStreams st)
    | None => mediaStreams st
    end
  /\ audioContexts (cleanupAudio st)
     = (match outputAudioContextRef st with
        | Some c => alter closeContext c
        | None => fun l => l
        end)
         ((match inputAudioContextRef st with
           | Some c => alter closeContext c
           | None => fun l => l
           end) (audioContexts st))
  /\ sourcesRef (cleanupAudio st) = ∅
  /\ nextStartTimeRef (cleanupAudio st) = 0%Q
  /\ micStream (cleanupAudio st) = None
  /\ inputAudioContextRef (cleanupAudio st) = None
  /\ outputAudioContextRef (cleanupAudio st) = None
  /\ session (cleanupAudio st) = session st
  /\ liveSessions (cleanupAudio st) = liveSessions st.
Proof.
  destruct st as [? ? [m|] ? [ic|] [oc|] ? ? ? ? ? ? ?]; cbn; repeat split.
Qed.

(** After [cleanupAudio] no tracked device is held. *)
Lemma cleanupAudio_releases (st : App) :
  tracked st -> holdsDevice (cleanupAudio st) = false.
Proof.
  intros [Hm Hc].
  destruct (cleanupAudio_fields st) as (Ems & Eac & _).
  unfold holdsDevice, holdsCapture, holdsOutput. rewrite Ems, Eac.
  apply orb_false_intro; apply existsb_lookup_false.
  - intros i x Hi.
    destruct (tracksLive x) eqn:El; [exfalso|reflexivity].
    destruct (micStream st) as [m|] eqn:Emic.
    + rewrite list_lookup_alter in Hi. case_decide as Hd.
      * destruct (mediaStreams st !! m); cbn in Hi; [|discriminate].
        inversion Hi; subst x. discriminate.
      * specialize (Hm i x Hi El). congruence.
    + specialize (Hm i x Hi El). discriminate.
  - intros i x Hi.
    destruct (contextClosed x) eqn:El; [reflexivity|exfalso].
    assert (Hclosed :
      forall (r : option nat) (l : list AudioContext),
        (match r with Some c => alter closeContext c | None => fun l => l end) l !! i = Some x ->
        r <> Some i /\ l !! i = Some x).
    { intros [c|] l Hl; [|split; [discriminate | exact Hl]].
      rewrite list_lookup_alter in Hl. case_decide as Hd.
      - subst c. destruct (l !! i); cbn in Hl; [|discriminate].
        inversion Hl; subst x. discriminate.
      - split; [congruence | exact Hl]. }
    apply Hclosed in Hi as [Ho Hi]. apply Hclosed in Hi as [Hin Hi].
    destruct (Hc i x Hi El); contradiction.
Qed.

(** The user's stop: [toggleSession] on an active session. *)
Lemma user_stop_releases (env : Acquisition) (st : App) :
  isActive (session st) = true -> tracked st ->
  holdsDevice (toggleSession env st) = false
  /\ sourcesRef (toggleSession env st) = ∅
  /\ nextStartTimeRef (toggleSession env st) = 0%Q
  /\ isActive (session (toggleSession env st)) = false.
Proof.
  intros Ha Ht. unfold toggleSession. rewrite Ha.
  set (st1 := match sessionPromiseRef st with
              | Some s => set_liveSessions (alter closeSession s) st
              | None => st
              end).
  assert (Ht1 : tracked st1).
  { subst st1. destruct (sessionPromiseRef st); [|exact Ht]. destruct st; exact Ht. }
  pose proof (cleanupAudio_releases st1 Ht1) as Hrel.
  destruct (cleanupAudio_fields st1) as (_ & _ & Hs & Hn & _).
  destruct (cleanupAudio st1); cbn in *. repeat split; assumption.
Qed.

(** [onclose] and [onerror] write the session record and nothing else. *)
Lemma onclose_fields (st : App) :
  mediaStreams (onclose st) = mediaStreams st
  /\ audioContexts (onclose st) = audioContexts st
  /\ sourceNodes (onclose st) = sourceNodes st
  /\ sourcesRef (onclose st) = sourcesRef st
  /\ nextStartTimeRef (onclose st) = nextStartTimeRef st
  /\ holdsDevice (onclose st) = holdsDevice st.
Proof. destruct st; cbn. repeat split. Qed.

Lemma onerror_fields (err : JsError) (st : App) :
  mediaStreams (onerror err st) = mediaStreams st
  /\ audioContexts (onerror err st) = audioContexts st
  /\ sourceNodes (onerror err st) = sourceNodes st
  /\ sourcesRef (onerror err st) = sourcesRef st
  /\ nextStartTimeRef (onerror err st) = nextStartTimeRef st
  /\ holdsDevice (onerror err st) = holdsDevice st
  /\ error (session (onerror err st)) = Some (lit "Connection error occurred.").
Proof. destruct st; cbn. repeat split. Qed.

(** C4.  The two ways a session shuts down.  The network's [closed] signal
    writes the session record only: whatever stream, contexts, handles and
    [nextStartTime] the component held, it still holds.  On a session that
    is playing a chunk: after [onclose] the stream is live, both contexts
    are open, the handle is in the set and [nextStartTime] keeps its value,
    whereas the user's stop releases the microphone and the audio contexts
    and flushes the scheduler. *)
Theorem onclose_keeps_devices :
  (forall st : App,
      mediaStreams (onclose st) = mediaStreams st
      /\ audioContexts (onclose st) = audioContexts st
      /\ sourceNodes (onclose st) = sourceNodes st
      /\ sourcesRef (onclose st) = sourcesRef st
      /\ nextStartTimeRef (onclose st) = nextStartTimeRef st
      /\ holdsDevice (onclose st) = holdsDevice st)
  /\ (let st := runningSession 0 (1 # 10) in
      (holdsCapture (onclose st) = true
       /\ holdsOutput (onclose st) = true
       /\ sourcesRef (onclose st) = {[0%nat]}
       /\ nextStartTimeRef (onclose st) = 1 # 10
       /\ isActive (session (onclose st)) = false)
      /\ (holdsDevice (toggleSession Acquired st) = false
          /\ sourcesRef (toggleSession Acquired st) = ∅
          /\ nextStartTimeRef (toggleSession Acquired st) = 0%Q
          /\ isActive (session (toggleSession Acquired st)) = false)).
Proof.
  split; [exact onclose_fields|].
  cbn. repeat split; reflexivity.
Qed.

(** C5.  The error paths.  A network error records a message and clears the
    flags, and releases nothing: stream, contexts, handles and
    [nextStartTime] are as before, exactly as on the close path.  On a
    session that is playing a chunk the stream is live and the contexts are
    open afterwards.  A failure of [startSession] after [getUserMedia] has
    answered records the error's message and leaves the microphone stream
    live; when [getUserMedia] itself is refused nothing has been acquired. *)
Theorem error_paths_keep_devices :
  (forall (err : JsError) (st : App),
      mediaStreams (onerror err st) = mediaStreams st
      /\ audioContexts (onerror err st) = audioContexts st
      /\ sourceNodes (onerror err st) = sourceNodes st
      /\ sourcesRef (onerror err st) = sourcesRef st
      /\ nextStartTimeRef (onerror err st) = nextStartTimeRef st
      /\ holdsDevice (onerror err st) = holdsDevice st
      /\ error (session (onerror err st)) = Some (lit "Connection error occurred."))
  /\ (let st := runningSession 0 (1 # 10) in
      let err := {| message := Some (lit "NotSupportedError") |} in
      (error (session (onerror err st)) = Some (lit "Connection error occurred.")
       /\ isActive (session (onerror err st)) = false
       /\ holdsCapture (onerror err st) = true
       /\ holdsOutput (onerror err st) = true
       /\ sourcesRef (onerror err st) = {[0%nat]}
       /\ onerror err st = set_session (fun _ => session (onerror err st)) (onclose st))
      /\ (error (session (toggleSession (InputContextThrew err) initialApp))
          = Some (lit "NotSupportedError")
          /\ isConnecting (session (toggleSession (InputContextThrew err) initialApp)) = false
          /\ holdsCapture (toggleSession (InputContextThrew err) initialApp) = true)
      /\ (error (session (toggleSession (GetUserMediaRejected err) initialApp))
          = Some (lit "NotSupportedError")
          /\ holdsDevice (toggleSession (GetUserMediaRejected err) initialApp) = false)).
Proof.
  split; [exact onerror_fields|].
  cbn. repeat split; reflexivity.
Qed.

(** * Further properties of the component *)

(** ** The scheduler: order of the start times *)

Lemma Math_max_ge_l (a b : Q) : (a <= Math_max a b)%Q.
Proof.
  unfold Math_max. destruct (Qle_bool b a) eqn:E; [apply Qle_refl|].
  apply Qlt_le_weak, Qnot_le_lt. intros Hle.
  apply Qle_bool_iff in Hle. congruence.
Qed.

Lemma Math_max_ge_r (a b : Q) : (b <= Math_max a b)%Q.
Proof.
  unfold Math_max. destruct (Qle_bool b a) eqn:E; [|apply Qle_refl].
  now apply Qle_bool_iff.
Qed.

Lemma startTimes_length (arrivals : list (Q * AudioBuffer)) :
  forall next : Q, length (startTimes next arrivals) = length arrivals.
Proof.
  induction arrivals as [|[now b] rest IH]; intros next; [reflexivity|].
  cbn. now rewrite IH.
Qed.

Lemma startTimes_head (arrivals : list (Q * AudioBuffer)) (next s : Q) :
  startTimes next arrivals !! 0%nat = Some s -> (next <= s)%Q.
Proof.
  destruct arrivals as [|[now b] rest]; [discriminate|].
  cbn. intros [= <-]. apply Math_max_ge_l.
Qed.

Lemma startTimes_spacing (arrivals : list (Q * AudioBuffer)) :
  forall (next : Q) (i : nat) (now : Q) (b : AudioBuffer) (s : Q),
    arrivals !! i = Some (now, b) -> startTimes next arrivals !! i = Some s ->
    (now <= s)%Q
    /\ forall s' : Q, startTimes next arrivals !! S i = Some s' -> (s + duration b <= s')%Q.
Proof.
  induction arrivals as [|[now0 b0] rest IH]; intros next i now b s Ha Hs; [discriminate|].
  destruct i as [|i].
  - cbn in Ha, Hs. inversion Ha; subst now0 b0. inversion Hs; subst s. split.
    + apply Math_max_ge_r.
    + intros s' Hs'. cbn in Hs'. exact (startTimes_head rest _ s' Hs').
  - cbn in Ha, Hs. destruct (IH _ i now b s Ha Hs) as [H1 H2].
    split; [exact H1|]. intros s' Hs'. apply H2. exact Hs'.
Qed.

(** X1.  Whatever the arrival times, a buffer is never started before the
    clock reading taken at its arrival, and never before the buffer
    enqueued before it has run for its whole duration: the playback of
    successive buffers does not overlap. *)
Theorem scheduler_never_overlaps (st : App) (arrivals : list (Q * AudioBuffer)) :
  exists starts : list Q,
    startsSince (length (sourceNodes st)) (enqueueAll arrivals st) = map Some starts
    /\ length starts = length arrivals
    /\ forall (i : nat) (now : Q) (b : AudioBuffer) (s : Q),
         arrivals !! i = Some (now, b) -> starts !! i = Some s ->
         (now <= s)%Q
         /\ forall s' : Q, starts !! S i = Some s' -> (s + duration b <= s')%Q.
Proof.
  exists (startTimes (nextStartTimeRef st) arrivals).
  destruct (enqueueAll_trace arrivals st) as (new & Hn & Hs & _).
  split; [rewrite (startsSince_app _ _ _ Hn); exact Hs|].
  split; [apply startTimes_length|].
  intros i now b s. apply startTimes_spacing.
Qed.

(** X2.  Enqueuing a buffer of non-negative duration never moves
    [nextStartTime] backwards, and leaves it at least one duration after the
    clock reading: the next buffer cannot be started before this one is
    over. *)
Theorem enqueue_advances_nextStartTime (now : Q) (b : AudioBuffer) (st : App) :
  (0 <= duration b)%Q ->
  (nextStartTimeRef st <= nextStartTimeRef (enqueue now b st))%Q
  /\ (now + duration b <= nextStartTimeRef (enqueue now b st))%Q.
Proof.
  intros Hd. rewrite enqueue_nextStartTimeRef. split.
  - apply Qle_trans with (Math_max (nextStartTimeRef st) now + 0)%Q.
    + rewrite Qplus_0_r. apply Math_max_ge_l.
    + apply Qplus_le_r. exact Hd.
  - apply Qplus_le_l. apply Math_max_ge_r.
Qed.

Lemma enqueue_advances_nextStartTime_witness :
  (nextStartTimeRef (runningSession 0 (1 # 10))
   <= nextStartTimeRef (enqueue (1 # 2) (tone (1 # 5)) (runningSession 0 (1 # 10))))%Q
  /\ ((1 # 2) + duration (tone (1 # 5))
      <= nextStartTimeRef (enqueue (1 # 2) (tone (1 # 5)) (runningSession 0 (1 # 10))))%Q.
Proof.
  apply (enqueue_advances_nextStartTime (1 # 2) (tone (1 # 5)) (runningSession 0 (1 # 10))).
  discriminate.
Defined.

(** ** Fields written by the callbacks *)

Lemma startSession_fields (env : Acquisition) (st : App) :
  sourceNodes (startSession env st) = sourceNodes st
  /\ sourcesRef (startSession env st) = sourcesRef st
  /\ nextStartTimeRef (startSession env st) = nextStartTimeRef st
  /\ transcriptions (startSession env st) = transcriptions st
  /\ transcriptionBufferRef (startSession env st) = transcriptionBufferRef st
  /\ mode (session (startSession env st)) = mode (session st)
  /\ isActive (session (startSession env st)) = isActive (session st).
Proof. destruct env, st; cbn; repeat split. Qed.

Lemma toggleSession_stop_fields (env : Acquisition) (st : App) :
  isActive (session st) = true ->
  sourcesRef (toggleSession env st) = ∅
  /\ nextStartTimeRef (toggleSession env st) = 0%Q
  /\ transcriptions (toggleSession env st) = transcriptions st
  /\ transcriptionBufferRef (toggleSession env st) = transcriptionBufferRef st
  /\ session (toggleSession env st)
     = {| isActive := false; isConnecting := false;
          mode := mode (session st); error := error (session st) |}
  /\ micStream (toggleSession env st) = None.
Proof.
  intros Ha. unfold toggleSession. rewrite Ha.
  destruct st as [? ? [m|] [p|] [ic|] [oc|] ? ? ? ? ? ? ?]; cbn; repeat split.
Qed.

Lemma sessionOnly_fields (f : TranslationSessionState -> TranslationSessionState) (st : App) :
  sourceNodes (set_session f st) = sourceNodes st
  /\ sourcesRef (set_session f st) = sourcesRef st
  /\ nextStartTimeRef (set_session f st) = nextStartTimeRef st
  /\ transcriptions (set_session f st) = transcriptions st
  /\ transcriptionBufferRef (set_session f st) = transcriptionBufferRef st
  /\ micStream (set_session f st) = micStream st
  /\ mediaStreams (set_session f st) = mediaStreams st
  /\ audioContexts (set_session f st) = audioContexts st
  /\ inputAudioContextRef (set_session f st) = inputAudioContextRef st
  /\ outputAudioContextRef (set_session f st) = outputAudioContextRef st.
Proof. destruct st; cbn; repeat split. Qed.

Lemma schedule_fields (b : AudioBuffer) (st : App) :
  sourceNodes (schedule b st)
  = sourceNodes st ++ [{| buffer := b; startWhen := Some (nextStartTimeRef st);
                          stopCalled := false |}]
  /\ sourcesRef (schedule b st) = sourcesRef st ∪ {[length (sourceNodes st)]}
  /\ nextStartTimeRef (schedule b st) = (nextStartTimeRef st + duration b)%Q.
Proof. destruct st; cbn; repeat split. Qed.

(** ** The handle set *)

Lemma handlesLive_ext (st st' : App) :
  sourceNodes st' = sourceNodes st -> sourcesRef st' ⊆ sourcesRef st ->
  handlesLive st -> handlesLive st'.
Proof.
  intros Hn Hs Hl i Hi. rewrite Hn. apply Hl. set_solver.
Qed.

Lemma handlesLive_empty (st : App) : sourcesRef st = ∅ -> handlesLive st.
Proof. intros He i Hi. rewrite He in Hi. set_solver. Qed.

Lemma handlesLive_bound (st : App) (i : nat) :
  handlesLive st -> i ∈ sourcesRef st -> (i < length (sourceNodes st))%nat.
Proof.
  intros Hl Hi. destruct (Hl i Hi) as (n & Hn & _).
  now apply lookup_lt_Some in Hn.
Qed.

Lemma handlesLive_schedule (b : AudioBuffer) (st : App) :
  handlesLive st -> handlesLive (schedule b st).
Proof.
  intros Hl i Hi. destruct (schedule_fields b st) as (Hn & Hs & _).
  rewrite Hn. rewrite Hs in Hi. apply elem_of_union in Hi as [Hi|Hi].
  - destruct (Hl i Hi) as (n & Hlk & Hst & Hsw). exists n.
    split; [|split; assumption].
    rewrite lookup_app_l; [exact Hlk | now apply lookup_lt_Some in Hlk].
  - apply elem_of_singleton in Hi. subst i. eexists. split.
    + rewrite lookup_app_r by lia. rewrite Nat.sub_diag. reflexivity.
    + split; [reflexivity | eexists; reflexivity].
Qed.

Lemma handlesLive_handleInterruptions (message : LiveServerMessage) (st : App) :
  handlesLive st -> handlesLive (handleInterruptions message st).
Proof.
  intros Hl. unfold handleInterruptions.
  destruct (interrupted <$> serverContent message) as [[|]|]; try exact Hl.
  apply handlesLive_empty, flush_sourcesRef.
Qed.

Section HandleSet.
Context `{AudioProcessing}.

Lemma handlesLive_handleAudioOutput (now : Q) (message : LiveServerMessage) (st : App) :
  handlesLive st -> handlesLive (snd (handleAudioOutput now message st)).
Proof.
  intros Hl. unfold handleAudioOutput.
  destruct (partsMissing message); [exact Hl|].
  destruct (base64Audio message) as [b64|]; [|exact Hl].
  destruct (outputAudioContextRef st); [|exact Hl].
  destruct (truthy b64); [|exact Hl].
  assert (Hs : handlesLive (syncToClock now st)).
  { destruct (syncToClock_fields now st) as (_ & Hn & Hr).
    apply (handlesLive_ext st); [exact Hn | now rewrite Hr | exact Hl]. }
  destruct (decodeAudioData (decode b64) 24000 1); cbn; [|exact Hs].
  now apply handlesLive_schedule.
Qed.

Lemma handlesLive_onmessage (now : Q) (tUser tModel : Z)
    (message : LiveServerMessage) (st : App) :
  handlesLive st -> handlesLive (snd (onmessage now tUser tModel message st)).
Proof.
  intros Hl. unfold onmessage.
  set (st1 := handleTurnComplete tUser tModel message (handleTranscription message st)).
  assert (Hl1 : handlesLive st1).
  { destruct (dialogueOnly_handleTranscription message st)
      as (_ & _ & _ & _ & _ & _ & Hr1 & _ & _ & Hn1 & _).
    destruct (dialogueOnly_handleTurnComplete tUser tModel message
                (handleTranscription message st))
      as (_ & _ & _ & _ & _ & _ & Hr2 & _ & _ & Hn2 & _).
    apply (handlesLive_ext st); [subst st1; congruence | | exact Hl].
    subst st1. rewrite Hr2, Hr1. reflexivity. }
  pose proof (handlesLive_handleAudioOutput now message st1 Hl1) as Ha.
  destruct (handleAudioOutput now message st1) as [[|] st2]; cbn in *; [|exact Ha].
  now apply handlesLive_handleInterruptions.
Qed.

Lemma handlesLive_step (ev : Event) (st : App) :
  handlesLive st -> handlesLive (step ev st).
Proof.
  intros Hl. destruct ev as [env| | |now tUser tModel message|err| |n]; cbn [step].
  - unfold clickToggle. destruct (isConnecting (session st)); [exact Hl|].
    destruct (isActive (session st)) eqn:Ha.
    + apply handlesLive_empty. now apply toggleSession_stop_fields.
    + unfold toggleSession. rewrite Ha.
      destruct (startSession_fields env st) as (Hn & Hs & _).
      apply (handlesLive_ext st); [exact Hn | now rewrite Hs | exact Hl].
  - apply (handlesLive_ext st); [now destruct st | now destruct st | exact Hl].
  - apply (handlesLive_ext st); [now destruct st | now destruct st | exact Hl].
  - now apply handlesLive_onmessage.
  - apply (handlesLive_ext st); [now destruct st | now destruct st | exact Hl].
  - apply (handlesLive_ext st); [now destruct st | now destruct st | exact Hl].
  - apply (handlesLive_ext st); [now destruct st | | exact Hl].
    destruct st; cbn. intros x Hx. now apply elem_of_difference in Hx.
Qed.

(** X3.  Whatever happens to the component, every handle of [sourcesRef]
    names a node that exists, was started and has not been stopped: a node
    that is stopped has left the set. *)
Theorem handles_stay_live (events : list Event) (st : App) :
  handlesLive st -> handlesLive (run events st).
Proof.
  revert st. induction events as [|ev events IH]; intros st Hl; [exact Hl|].
  cbn. apply IH. now apply handlesLive_step.
Qed.

(** X4.  A message that carries a chunk and the [interrupted] flag: the
    chunk is handled first, so its node is created and started, then
    stopped by the flush that follows in the same handler run; the handle
    set ends empty and [nextStartTime] at 0. *)
Theorem chunk_in_interrupting_message (now : Q) (tUser tModel : Z)
    (message : LiveServerMessage) (st : App)
    (b64 : jsstring) (ctx : nat) (b : AudioBuffer) :
  interrupted <$> serverContent message = Some true ->
  base64Audio message = Some b64 -> truthy b64 = true ->
  outputAudioContextRef st = Some ctx ->
  decodeAudioData (decode b64) 24000 1 = Some b ->
  let st' := snd (onmessage now tUser tModel message st) in
  sourceNodes st' !! length (sourceNodes st)
  = Some {| buffer := b; startWhen := Some (Math_max (nextStartTimeRef st) now);
            stopCalled := true |}
  /\ length (sourceNodes st') = S (length (sourceNodes st))
  /\ sourcesRef st' = ∅
  /\ nextStartTimeRef st' = 0%Q.
Proof.
  intros Hi Hb Ht Hc Hd st'.
  set (st1 := handleTurnComplete tUser tModel message (handleTranscription message st)).
  destruct (dialogueOnly_handleTranscription message st)
    as (_ & _ & _ & _ & Ho1 & Hx1 & _ & _ & _ & Hn1 & _).
  destruct (dialogueOnly_handleTurnComplete tUser tModel message
              (handleTranscription message st))
    as (_ & _ & _ & _ & Ho2 & Hx2 & _ & _ & _ & Hn2 & _).
  fold st1 in Ho2, Hx2, Hn2.
  assert (Hst : st' = flush (enqueue now b st1)).
  { subst st'. unfold onmessage. fold st1.
    rewrite (handleAudioOutput_enqueue now message st1 b64 ctx b Hb Ht);
      [|congruence|exact Hd].
    cbn. unfold handleInterruptions. now rewrite Hi. }
  rewrite Hst. split; [|split; [|split]].
  - rewrite flush_sourceNodes, stopSources_lookup, enqueue_sourceNodes, enqueue_sourcesRef.
    replace (length (sourceNodes st)) with (length (sourceNodes st1)) by congruence.
    rewrite lookup_app_r by lia. rewrite Nat.sub_diag. cbn.
    rewrite bool_decide_eq_true_2
      by (apply elem_of_union; right; now apply elem_of_singleton).
    unfold stopNode. cbn. now rewrite Hx2, Hx1.
  - rewrite flush_sourceNodes.
    assert (Hlen : length (sourceNodes (stopSources (enqueue now b st1)))
                   = length (sourceNodes (enqueue now b st1))).
    { destruct (enqueue now b st1); cbn. apply length_imap. }
    rewrite Hlen, enqueue_sourceNodes, length_app. cbn. rewrite Hn2, Hn1. lia.
  - apply flush_sourcesRef.
  - apply flush_nextStartTimeRef.
Qed.

End HandleSet.

Lemma handles_stay_live_witness :
  (handlesLive
     (@run exampleAudio
        [Click Acquired; Opened; Message 0 0 0 (speechChunk (repeat 65%N 8) false)]
        initialApp)
   /\ sourcesRef
        (@run exampleAudio
           [Click Acquired; Opened; Message 0 0 0 (speechChunk (repeat 65%N 8) false)]
           initialApp) = {[0%nat]})
  /\ (handlesLive
        (@run exampleAudio
           [Message (1 # 2) 0 0 (speechChunk (repeat 65%N 8) false); Ended 0%nat]
           (runningSession 0 (1 # 10)))
      /\ sourcesRef (runningSession 0 (1 # 10)) = {[0%nat]}
      /\ sourcesRef
           (@run exampleAudio
              [Message (1 # 2) 0 0 (speechChunk (repeat 65%N 8) false); Ended 0%nat]
              (runningSession 0 (1 # 10))) = {[1%nat]}).
Proof.
  split; (split; [|vm_compute; repeat split; reflexivity]).
  - apply (@handles_stay_live exampleAudio).
    intros i Hi. exfalso. exact (not_elem_of_empty i Hi).
  - apply (@handles_stay_live exampleAudio).
    intros i Hi.
    replace (sourcesRef (runningSession 0 (1 # 10))) with ({[0%nat]} : gset nat) in Hi
      by reflexivity.
    apply elem_of_singleton in Hi. subst i.
    eexists. split; [reflexivity|]. split; [reflexivity | eexists; reflexivity].
Defined.

Lemma chunk_in_interrupting_message_witness :
  let st := onopen (toggleSession Acquired initialApp) in
  let st' := snd (@onmessage exampleAudio (1 # 2) 0 0 (speechChunk (repeat 65%N 8) true) st) in
  (stopCalled <$> sourceNodes st' !! 0%nat) = Some true
  /\ sourcesRef st' = ∅.
Proof.
  intros st st'.
  destruct (@chunk_in_interrupting_message exampleAudio (1 # 2) 0 0
              (speechChunk (repeat 65%N 8) true) st (repeat 65%N 8) 1%nat
              {| channelData := repeat (inject_Z 16705 / 32768)%Q 4;
                 bufferSampleRate := 24000;
                 duration := (inject_Z 4 / inject_Z 24000)%Q |}
              eq_refl eq_refl eq_refl eq_refl eq_refl) as (Hn & _ & Hs & _).
  split; [|exact Hs].
  change (length (sourceNodes st)) with 0%nat in Hn.
  fold st' in Hn. now rewrite Hn.
Defined.

(** X5.  The ['ended'] listener.  When the node just enqueued ends, the
    handle set is what it was before the enqueue and [nextStartTime] keeps
    the value the enqueue gave it; an ['ended'] event that arrives after a
    flush finds the set empty and changes nothing. *)
Theorem ended_removes_only_its_handle (now : Q) (b : AudioBuffer) (n : nat) (st : App) :
  handlesLive st ->
  sourcesRef (onended (length (sourceNodes st)) (enqueue now b st)) = sourcesRef st
  /\ nextStartTimeRef (onended (length (sourceNodes st)) (enqueue now b st))
     = (Math_max (nextStartTimeRef st) now + duration b)%Q
  /\ sourceNodes (onended (length (sourceNodes st)) (enqueue now b st))
     = sourceNodes (enqueue now b st)
  /\ onended n (flush st) = flush st.
Proof.
  intros Hl.
  assert (Hfresh : length (sourceNodes st) ∉ sourcesRef st).
  { intros Hin. apply (handlesLive_bound st _ Hl) in Hin. lia. }
  pose proof (enqueue_sourcesRef now b st) as Hs.
  pose proof (enqueue_nextStartTimeRef now b st) as Hx.
  split; [|split; [|split]].
  - destruct (enqueue now b st); cbn in *. subst.
    apply set_eq. intros x.
    rewrite elem_of_difference, elem_of_union, elem_of_singleton.
    split; [tauto|]. intros Hin. split; [now left|]. intros ->. contradiction.
  - destruct (enqueue now b st); cbn in *. exact Hx.
  - destruct (enqueue now b st); reflexivity.
  - pose proof (flush_sourcesRef st) as He.
    destruct (flush st); cbn in *. subst. f_equal.
    apply set_eq. intros x. rewrite elem_of_difference.
    split; [tauto|]. intros Hin. now apply not_elem_of_empty in Hin.
Qed.

Lemma ended_removes_only_its_handle_witness :
  sourcesRef (onended 1%nat (enqueue (1 # 2) (tone (1 # 5)) (runningSession 0 (1 # 10))))
  = sourcesRef (runningSession 0 (1 # 10)).
Proof.
  apply (ended_removes_only_its_handle (1 # 2) (tone (1 # 5)) 0%nat
           (runningSession 0 (1 # 10))).
  intros i Hi.
  replace (sourcesRef (runningSession 0 (1 # 10))) with ({[0%nat]} : gset nat) in Hi
    by reflexivity.
  apply elem_of_singleton in Hi. subst i.
  eexists. split; [reflexivity|]. split; [reflexivity | eexists; reflexivity].
Defined.

(** ** [trim] *)

Lemma trimStart_suffix (s : jsstring) :
  exists ws : jsstring, s = ws ++ trimStart s /\ blank ws.
Proof.
  induction s as [|c s (ws & Hs & Hb)]; [exists []; split; [reflexivity | constructor]|].
  cbn. destruct (isWhiteSpace c) eqn:E.
  - exists (c :: ws). split; [cbn; now f_equal | now constructor].
  - exists []. split; [reflexivity | constructor].
Qed.

Lemma trimStart_head (s : jsstring) (c : N) :
  head (trimStart s) = Some c -> isWhiteSpace c = false.
Proof.
  induction s as [|d s IH]; [discriminate|].
  cbn. destruct (isWhiteSpace d) eqn:E; [exact IH|].
  cbn. now intros [= <-].
Qed.

Lemma trimStart_blank (s : jsstring) : blank s -> trimStart s = [].
Proof.
  induction 1 as [|c s Hc _ IH]; [reflexivity|]. cbn. now rewrite Hc.
Qed.

Lemma blank_trimStart_nil (s : jsstring) : blank (trimStart s) -> trimStart s = [].
Proof.
  intros Hb. destruct (trimStart s) as [|c t] eqn:E; [reflexivity|].
  assert (Hc : isWhiteSpace c = false) by (apply (trimStart_head s); now rewrite E).
  inversion Hb; congruence.
Qed.

Lemma last_rev_head {A : Type} (l : list A) : last (rev l) = head l.
Proof. destruct l as [|a l]; [reflexivity|]. cbn. apply last_snoc. Qed.

Lemma trimEnd_prefix (s : jsstring) :
  exists ws : jsstring, s = trimEnd s ++ ws /\ blank ws.
Proof.
  unfold trimEnd. destruct (trimStart_suffix (rev s)) as (ws & Hs & Hb).
  exists (rev ws). split.
  - rewrite <- rev_app_distr, <- Hs. now rewrite rev_involutive.
  - now apply Forall_rev.
Qed.

Lemma trimEnd_last (s : jsstring) (c : N) :
  last (trimEnd s) = Some c -> isWhiteSpace c = false.
Proof. unfold trimEnd. rewrite last_rev_head. apply trimStart_head. Qed.

Lemma trimEnd_nil_blank (s : jsstring) : trimEnd s = [] -> blank s.
Proof.
  intros E. destruct (trimEnd_prefix s) as (ws & Hs & Hb).
  rewrite E in Hs. now subst s.
Qed.

(** A non-empty result of [trim] has no white space at either end. *)
Lemma trim_trimmed (s : jsstring) : trim s <> [] -> trimmed (trim s).
Proof.
  intros Hne. split; [exact Hne|]. split.
  - intros c Hc. unfold trim in *.
    destruct (trimEnd_prefix (trimStart s)) as (ws & Hs & _).
    apply (trimStart_head s). rewrite Hs.
    destruct (trimEnd (trimStart s)); [contradiction | exact Hc].
  - intros c. apply trimEnd_last.
Qed.

(** [trim] answers the empty string exactly on blank strings. *)
Lemma trim_nil_iff (s : jsstring) : trim s = [] <-> blank s.
Proof.
  unfold trim. split.
  - intros E. apply trimEnd_nil_blank, blank_trimStart_nil in E.
    destruct (trimStart_suffix s) as (ws & Hs & Hb).
    rewrite E, app_nil_r in Hs. now subst s.
  - intros Hb. now rewrite (trimStart_blank s Hb).
Qed.

(** ** The transcript buffers and the log *)

Lemma handleTranscription_bufferOf (r : Role) (message : LiveServerMessage) (st : App) :
  bufferOf r (transcriptionBufferRef (handleTranscription message st))
  = bufferOf r (transcriptionBufferRef st) ++ fragmentOf r message.
Proof.
  destruct message as [[c|]].
  - rewrite handleTranscription_buffer. unfold fragmentOf.
    destruct r; cbn; reflexivity.
  - destruct r; cbn; now rewrite app_nil_r.
Qed.

Lemma handleTranscription_log (message : LiveServerMessage) (st : App) :
  transcriptions (handleTranscription message st) = transcriptions st.
Proof.
  unfold handleTranscription.
  destruct (serverContent message ≫= inputTranscription),
           (serverContent message ≫= outputTranscription), st; reflexivity.
Qed.

Lemma handleTurnComplete_midTurn (tUser tModel : Z) (message : LiveServerMessage) (st : App) :
  midTurn message = true -> handleTurnComplete tUser tModel message st = st.
Proof.
  unfold midTurn, handleTurnComplete.
  destruct (turnComplete <$> serverContent message) as [[|]|]; [discriminate | reflexivity..].
Qed.

Lemma turnEntries_trimmed (tUser tModel : Z) (u m : jsstring) :
  Forall (fun e => trimmed (text e)) (turnEntries tUser tModel (trim u) (trim m)).
Proof.
  unfold turnEntries. apply Forall_app. split.
  - destruct (trim u) eqn:E; cbn; [constructor|].
    constructor; [|constructor]. cbn. rewrite <- E. apply trim_trimmed. now rewrite E.
  - destruct (trim m) eqn:E; cbn; [constructor|].
    constructor; [|constructor]. cbn. rewrite <- E. apply trim_trimmed. now rewrite E.
Qed.

Lemma turnEntries_length (tUser tModel : Z) (u m : jsstring) :
  (length (turnEntries tUser tModel u m) <= 2)%nat.
Proof. unfold turnEntries. destruct (truthy u), (truthy m); cbn; lia. Qed.

Section Transcript.
Context `{AudioProcessing}.

(** What one message appends to the log. *)
Lemma onmessage_log (now : Q) (tUser tModel : Z) (message : LiveServerMessage) (st : App) :
  transcriptions (snd (onmessage now tUser tModel message st))
  = transcriptions st
    ++ (if midTurn message then []
        else turnEntries tUser tModel
               (trim (user (transcriptionBufferRef (handleTranscription message st))))
               (trim (model (transcriptionBufferRef (handleTranscription message st))))).
Proof.
  destruct (onmessage_dialogue now tUser tModel message st) as (_ & -> & _).
  destruct (midTurn message) eqn:Em.
  - rewrite handleTurnComplete_midTurn by exact Em.
    now rewrite handleTranscription_log, app_nil_r.
  - assert (Ht : turnComplete <$> serverContent message = Some true).
    { unfold midTurn in Em.
      destruct (turnComplete <$> serverContent message) as [[|]|]; congruence. }
    destruct (handleTurnComplete_entries tUser tModel message
                (handleTranscription message st) Ht) as [-> _].
    now rewrite handleTranscription_log.
Qed.

Lemma step_log (ev : Event) (st : App) :
  ev <> ClearClicked ->
  transcriptions (step ev st)
  = transcriptions st
    ++ match ev with
       | Message now tUser tModel message =>
           if midTurn message then []
           else turnEntries tUser tModel
                  (trim (user (transcriptionBufferRef (handleTranscription message st))))
                  (trim (model (transcriptionBufferRef (handleTranscription message st))))
       | _ => []
       end.
Proof.
  intros Hne. destruct ev as [env| | |now tUser tModel message|err| |n]; cbn [step];
    rewrite ?app_nil_r.
  - unfold clickToggle. destruct (isConnecting (session st)); [reflexivity|].
    destruct (isActive (session st)) eqn:Ha.
    + now apply toggleSession_stop_fields.
    + unfold toggleSession. rewrite Ha. now apply startSession_fields.
  - contradiction.
  - now destruct st.
  - apply onmessage_log.
  - now destruct st.
  - now destruct st.
  - now destruct st.
Qed.

(** X6.  The transcript log only grows, except by the "Clear" button: any
    other event leaves the entries already there in place and in order,
    appends at most two, and appends some only when it is a message with the
    turn-complete signal. *)
Theorem log_is_append_only (ev : Event) (st : App) :
  ev <> ClearClicked ->
  exists new : list Transcription,
    transcriptions (step ev st) = transcriptions st ++ new
    /\ (length new <= 2)%nat
    /\ (new <> [] -> closesTurn ev = true).
Proof.
  intros Hne. eexists. split; [apply (step_log ev st Hne)|].
  destruct ev as [env| | |now tUser tModel message|err| |n]; cbn;
    try (split; [lia | congruence]).
  destruct (midTurn message); cbn; [split; [lia | congruence]|].
  split; [apply turnEntries_length | reflexivity].
Qed.

(** X7.  Every entry the component ever puts in the log has a text that is
    non-empty and has no white space at its start or end. *)
Theorem log_entries_are_trimmed (events : list Event) (st : App) :
  Forall (fun e => trimmed (text e)) (transcriptions st) ->
  Forall (fun e => trimmed (text e)) (transcriptions (run events st)).
Proof.
  revert st. induction events as [|ev events IH]; intros st Hst; [exact Hst|].
  cbn. apply IH.
  destruct ev as [env| | |now tUser tModel message|err| |n];
    [|destruct st; constructor|..];
    (rewrite step_log by discriminate; apply Forall_app; split; [exact Hst|]);
    try constructor.
  destruct (midTurn message); [constructor | apply turnEntries_trimmed].
Qed.

Lemma step_bufferOf (r : Role) (ev : Event) (st : App) :
  closesTurn ev = false ->
  bufferOf r (transcriptionBufferRef (step ev st))
  = bufferOf r (transcriptionBufferRef st) ++ eventFragment r ev.
Proof.
  intros Hc. destruct ev as [env| | |now tUser tModel message|err| |n];
    cbn [step eventFragment]; rewrite ?app_nil_r.
  - unfold clickToggle. destruct (isConnecting (session st)); [reflexivity|].
    destruct (isActive (session st)) eqn:Ha.
    + f_equal. now apply toggleSession_stop_fields.
    + unfold toggleSession. rewrite Ha. f_equal. now apply startSession_fields.
  - now destruct st.
  - now destruct st.
  - cbn in Hc. apply negb_false_iff in Hc.
    destruct (onmessage_dialogue now tUser tModel message st) as (_ & _ & -> & _).
    rewrite handleTurnComplete_midTurn by exact Hc.
    apply handleTranscription_bufferOf.
  - now destruct st.
  - now destruct st.
  - now destruct st.
Qed.

(** X8.  Between two turn boundaries the buffer of a role is its earlier
    content followed by what lines 114 and 117 append for the transcription
    objects received for that role, in their order of arrival: the text of
    the object, or the string ["undefined"] for an object without text.
    This holds however the messages of the two roles interleave and whatever
    else happens meanwhile; stopping and restarting the session does not
    empty the buffers. *)
Theorem fragments_concatenate (r : Role) (events : list Event) (st : App) :
  Forall (fun ev => closesTurn ev = false) events ->
  bufferOf r (transcriptionBufferRef (run events st))
  = bufferOf r (transcriptionBufferRef st) ++ concat (map (eventFragment r) events).
Proof.
  intros Hall. revert st. induction Hall as [|ev events Hev _ IH]; intros st.
  - cbn. now rewrite app_nil_r.
  - cbn [run fold_left map concat]. fold (run events (step ev st)).
    rewrite IH, (step_bufferOf r ev st Hev). now rewrite app_assoc.
Qed.

(** X9.  At a turn boundary a role gets an entry exactly when its buffer
    holds a code unit that is not white space: blank buffers add nothing to
    the log, and a buffer that is not blank adds its trimmed text. *)
Theorem blank_buffers_emit_nothing (now : Q) (tUser tModel : Z)
    (message : LiveServerMessage) (st : App) :
  closesTurn (Message now tUser tModel message) = true ->
  let buf := transcriptionBufferRef (handleTranscription message st) in
  let st' := snd (onmessage now tUser tModel message st) in
  (blank (user buf) -> blank (model buf) -> transcriptions st' = transcriptions st)
  /\ (forall r : Role,
        ~ blank (bufferOf r buf) ->
        exists e : Transcription,
          e ∈ drop (length (transcriptions st)) (transcriptions st')
          /\ role e = r /\ text e = trim (bufferOf r buf))
  /\ (forall e : Transcription,
        e ∈ drop (length (transcriptions st)) (transcriptions st') ->
        ~ blank (bufferOf (role e) buf)).
Proof.
  intros Hc buf st'. cbn in Hc. apply negb_true_iff in Hc.
  subst st'. rewrite onmessage_log, Hc. fold buf.
  rewrite drop_app_length. unfold turnEntries. split; [|split].
  - intros Hu Hm. apply trim_nil_iff in Hu, Hm. rewrite Hu, Hm. cbn.
    now rewrite app_nil_r.
  - intros r Hr.
    assert (Hne : trim (bufferOf r buf) <> []) by (now rewrite trim_nil_iff).
    destruct r; cbn [bufferOf] in *.
    + destruct (trim (user buf)) eqn:E; [contradiction|]. cbn [truthy].
      eexists. split; [apply elem_of_app; left; apply elem_of_cons; now left|].
      split; reflexivity.
    + destruct (trim (model buf)) eqn:E; [contradiction|]. cbn [truthy].
      eexists. split; [apply elem_of_app; right; apply elem_of_cons; now left|].
      split; reflexivity.
  - intros e He Hb. apply elem_of_app in He as [He|He].
    + destruct (trim (user buf)) eqn:E; cbn in He; [now apply elem_of_nil in He|].
      apply elem_of_cons in He as [->|He]; [|now apply elem_of_nil in He].
      cbn in Hb. apply trim_nil_iff in Hb. congruence.
    + destruct (trim (model buf)) eqn:E; cbn in He; [now apply elem_of_nil in He|].
      apply elem_of_cons in He as [->|He]; [|now apply elem_of_nil in He].
      cbn in Hb. apply trim_nil_iff in Hb. congruence.
Qed.

End Transcript.

Lemma log_is_append_only_witness :
  let st := @run exampleAudio [Message 0 0 0 (inputFragment "Hello")]
              (onopen (toggleSession Acquired initialApp)) in
  exists new : list Transcription,
    transcriptions (@step exampleAudio (Message 0 5 5 turnCompleteSignal) st)
    = transcriptions st ++ new
    /\ (length new <= 2)%nat
    /\ (new <> [] -> closesTurn (Message 0 5 5 turnCompleteSignal) = true).
Proof.
  intros st.
  apply (@log_is_append_only exampleAudio (Message 0 5 5 turnCompleteSignal) st).
  discriminate.
Defined.

Lemma log_entries_are_trimmed_witness :
  Forall (fun e => trimmed (text e))
    (transcriptions
       (@run exampleAudio
          [Click Acquired; Opened; Message 0 0 0 (inputFragment "  Hello ");
           Message 0 5 5 turnCompleteSignal]
          initialApp)).
Proof.
  apply (@log_entries_are_trimmed exampleAudio). constructor.
Defined.

Lemma fragments_concatenate_witness :
  bufferOf role_model
    (transcriptionBufferRef
       (@run exampleAudio
          [Message 0 0 0 (outputFragment "Hola"); Message 0 0 0 (inputFragment "Hello");
           Click Acquired; Message 0 0 0 outputWithoutText;
           Message 0 0 0 (outputFragment " mundo")]
          (onopen (toggleSession Acquired initialApp))))
  = lit "Holaundefined mundo".
Proof.
  apply (@fragments_concatenate exampleAudio role_model
           [Message 0 0 0 (outputFragment "Hola"); Message 0 0 0 (inputFragment "Hello");
            Click Acquired; Message 0 0 0 outputWithoutText;
            Message 0 0 0 (outputFragment " mundo")]
           (onopen (toggleSession Acquired initialApp))).
  repeat constructor.
Defined.

Lemma blank_buffers_emit_nothing_witness :
  let st := @run exampleAudio [Message 0 0 0 (inputFragment "  ")]
              (onopen (toggleSession Acquired initialApp)) in
  transcriptions (snd (@onmessage exampleAudio 0 5 5 turnCompleteSignal st))
  = transcriptions st.
Proof.
  intros st.
  apply (proj1 (@blank_buffers_emit_nothing exampleAudio 0 5 5 turnCompleteSignal st
                  eq_refl)).
  - repeat constructor.
  - constructor.
Defined.

(** ** Chunks that are not played *)

Section IgnoredAudio.
Context `{AudioProcessing}.

(** X10.  A message from which no chunk is played: its chunk is missing
    or empty, or there is no output context (before a session is started,
    after [cleanupAudio]), or its model turn has no [parts].  No source node
    is created and no handle is added.  When the model turn has no [parts],
    line 134 throws: the handler is rejected and the scheduler is left as it
    was, whether or not the message is flagged [interrupted].  Otherwise the
    handler is fulfilled; the scheduler is left as it was if the message is
    not flagged, and flushed if it is. *)
Theorem chunk_ignored_without_context (now : Q) (tUser tModel : Z)
    (message : LiveServerMessage) (st : App) :
  outputAudioContextRef st = None
  \/ base64Audio message = None \/ base64Audio message = Some [] ->
  let r := onmessage now tUser tModel message st in
  fst r = (if partsMissing message then Rejected else Fulfilled)
  /\ length (sourceNodes (snd r)) = length (sourceNodes st)
  /\ sourcesRef (snd r) ⊆ sourcesRef st
  /\ (partsMissing message = true \/ interrupted <$> serverContent message <> Some true ->
      sourceNodes (snd r) = sourceNodes st
      /\ sourcesRef (snd r) = sourcesRef st
      /\ nextStartTimeRef (snd r) = nextStartTimeRef st)
  /\ (partsMissing message = false -> interrupted <$> serverContent message = Some true ->
      sourcesRef (snd r) = ∅ /\ nextStartTimeRef (snd r) = 0%Q).
Proof.
  intros Hig r.
  set (st1 := handleTurnComplete tUser tModel message (handleTranscription message st)).
  destruct (dialogueOnly_handleTranscription message st)
    as (_ & _ & _ & _ & Ho1 & Hx1 & Hr1 & _ & _ & Hn1 & _).
  destruct (dialogueOnly_handleTurnComplete tUser tModel message
              (handleTranscription message st))
    as (_ & _ & _ & _ & Ho2 & Hx2 & Hr2 & _ & _ & Hn2 & _).
  fold st1 in Ho2, Hx2, Hr2, Hn2.
  destruct (partsMissing message) eqn:Hp.
  - assert (Hr : r = (Rejected, st1)).
    { subst r. unfold onmessage. fold st1. unfold handleAudioOutput. now rewrite Hp. }
    rewrite Hr. cbn [fst snd].
    split; [reflexivity|]. split; [congruence|].
    split; [rewrite Hr2, Hr1; reflexivity|].
    split; [|discriminate]. intros _. repeat split; congruence.
  - assert (Ha : handleAudioOutput now message st1 = (Fulfilled, st1)).
    { unfold handleAudioOutput. rewrite Hp. destruct Hig as [Hc|[Hb|Hb]].
      - rewrite Ho2, Ho1, Hc. now destruct (base64Audio message).
      - now rewrite Hb.
      - rewrite Hb. now destruct (outputAudioContextRef st1). }
    assert (Hr : r = (Fulfilled, handleInterruptions message st1)).
    { subst r. unfold onmessage. fold st1. now rewrite Ha. }
    rewrite Hr. cbn [fst snd]. unfold handleInterruptions.
    destruct (interrupted <$> serverContent message) as [[|]|] eqn:Ei.
    + split; [reflexivity|]. split; [|split; [|split]].
      * rewrite flush_sourceNodes, <- Hn1, <- Hn2.
        destruct st1; cbn. apply length_imap.
      * rewrite flush_sourcesRef. apply empty_subseteq.
      * intros [Hf|Hne]; [discriminate | now contradiction Hne].
      * intros _ _. split; [apply flush_sourcesRef | apply flush_nextStartTimeRef].
    + split; [reflexivity|]. split; [congruence|].
      split; [rewrite Hr2, Hr1; reflexivity|].
      split; [|discriminate]. intros _. repeat split; congruence.
    + split; [reflexivity|]. split; [congruence|].
      split; [rewrite Hr2, Hr1; reflexivity|].
      split; [|discriminate]. intros _. repeat split; congruence.
Qed.

End IgnoredAudio.

Lemma chunk_ignored_without_context_witness :
  (let st := toggleSession Acquired (runningSession 0 (1 # 10)) in
   let r := @onmessage exampleAudio 1 0 0 (speechChunk (repeat 65%N 8) false) st in
   fst r = Fulfilled /\ length (sourceNodes (snd r)) = length (sourceNodes st))
  /\ (let st := runningSession 0 (1 # 10) in
      let r := @onmessage exampleAudio 1 0 0 (turnWithoutParts true) st in
      fst r = Rejected /\ sourcesRef (snd r) = sourcesRef st).
Proof.
  split; intros st r.
  - destruct (@chunk_ignored_without_context exampleAudio 1 0 0
                (speechChunk (repeat 65%N 8) false) st (or_introl eq_refl))
      as (H1 & H2 & _).
    split; [exact H1 | exact H2].
  - destruct (@chunk_ignored_without_context exampleAudio 1 0 0
                (turnWithoutParts true) st (or_intror (or_introl eq_refl)))
      as (H1 & _ & _ & H4 & _).
    split; [exact H1|]. apply H4. now left.
Defined.

(** ** [cleanupAudio] and the devices *)

Lemma cleanupAudio_fixed (st : App) :
  inputAudioContextRef st = None -> outputAudioContextRef st = None ->
  micStream st = None -> sourcesRef st = ∅ -> nextStartTimeRef st = 0%Q ->
  cleanupAudio st = st.
Proof.
  intros Hi Ho Hm Hs Hn. unfold cleanupAudio. rewrite Hi, Ho, Hm.
  rewrite (stopSources_empty st Hs).
  destruct st; cbn in *. now subst.
Qed.

(** X11.  [cleanupAudio] can be called again at no cost: a second call
    changes nothing, whatever the state the first one was called in. *)
Theorem cleanupAudio_idempotent (st : App) :
  cleanupAudio (cleanupAudio st) = cleanupAudio st.
Proof.
  destruct (cleanupAudio_fields st) as (_ & _ & Hs & Hn & Hm & Hi & Ho & _).
  now apply cleanupAudio_fixed.
Qed.

Lemma toggleSession_stop_streams (env : Acquisition) (st : App) :
  isActive (session st) = true ->
  mediaStreams (toggleSession env st)
  = match micStream st with
    | Some m => alter stopTracks m (mediaStreams st)
    | None => mediaStreams st
    end.
Proof.
  intros Ha. unfold toggleSession. rewrite Ha.
  destruct st as [? ? [m|] [p|] [ic|] [oc|] ? ? ? ? ? ? ?]; reflexivity.
Qed.

Lemma startSession_streams (env : Acquisition) (st : App) :
  (mediaStreams (startSession env st) = mediaStreams st
   /\ micStream (startSession env st) = micStream st
   /\ exists err : JsError, env = GetUserMediaRejected err)
  \/ (mediaStreams (startSession env st) = mediaStreams st ++ [{| tracksLive := true |}]
      /\ micStream (startSession env st) = Some (length (mediaStreams st))).
Proof.
  destruct env as [err|err|err|err|]; destruct st; cbn;
    [left; repeat split; now exists err | right; split; reflexivity ..].
Qed.

Lemma orphanStream_holdsCapture (i : nat) (st : App) :
  orphanStream i st -> holdsCapture st = true.
Proof.
  intros (_ & m & Hm & Hl). unfold holdsCapture.
  apply existsb_exists. exists m. split; [|exact Hl].
  apply list_elem_of_In, list_elem_of_lookup. now exists i.
Qed.

Lemma orphanStream_ext (i : nat) (st st' : App) :
  mediaStreams st' = mediaStreams st -> micStream st' = micStream st ->
  orphanStream i st -> orphanStream i st'.
Proof. unfold orphanStream. intros -> ->. tauto. Qed.

Section Orphans.
Context `{AudioProcessing}.

Lemma onmessage_streams (now : Q) (tUser tModel : Z) (message : LiveServerMessage) (st : App) :
  mediaStreams (snd (onmessage now tUser tModel message st)) = mediaStreams st
  /\ micStream (snd (onmessage now tUser tModel message st)) = micStream st
  /\ audioContexts (snd (onmessage now tUser tModel message st)) = audioContexts st
  /\ inputAudioContextRef (snd (onmessage now tUser tModel message st))
     = inputAudioContextRef st
  /\ outputAudioContextRef (snd (onmessage now tUser tModel message st))
     = outputAudioContextRef st
  /\ session (snd (onmessage now tUser tModel message st)) = session st.
Proof.
  destruct (onmessage_dialogue now tUser tModel message st)
    as (Hs & _ & _ & Hm & _ & Hi & Ho & Hms & Hac & _).
  destruct (dialogueOnly_handleTranscription message st)
    as (Hs1 & Hm1 & _ & Hi1 & Ho1 & _ & _ & Hms1 & Hac1 & _).
  destruct (dialogueOnly_handleTurnComplete tUser tModel message
              (handleTranscription message st))
    as (Hs2 & Hm2 & _ & Hi2 & Ho2 & _ & _ & Hms2 & Hac2 & _).
  repeat split; congruence.
Qed.

Lemma orphanStream_step (i : nat) (ev : Event) (st : App) :
  orphanStream i st -> orphanStream i (step ev st).
Proof.
  intros Ho. destruct ev as [env| | |now tUser tModel message|err| |n]; cbn [step];
    try (apply (orphanStream_ext i st); [now destruct st | now destruct st | exact Ho]).
  - unfold clickToggle. destruct (isConnecting (session st)); [exact Ho|].
    destruct Ho as (Hmic & m & Hm & Hl).
    destruct (isActive (session st)) eqn:Ha.
    + split; [rewrite (proj2 (proj2 (proj2 (proj2 (proj2
                 (toggleSession_stop_fields env st Ha)))))); discriminate|].
      exists m. split; [|exact Hl].
      rewrite (toggleSession_stop_streams env st Ha).
      destruct (micStream st) as [k|]; [|exact Hm].
      rewrite list_lookup_alter_ne; [exact Hm | congruence].
    + unfold toggleSession. rewrite Ha.
      destruct (startSession_streams env st) as [(Hms & Hmc & _)|(Hms & Hmc)].
      * split; [now rewrite Hmc|]. exists m. now rewrite Hms.
      * apply lookup_lt_Some in Hm as Hlt. split.
        -- rewrite Hmc. intros [= E]. lia.
        -- exists m. split; [|exact Hl]. rewrite Hms. now rewrite lookup_app_l.
  - destruct (onmessage_streams now tUser tModel message st) as (Hms & Hmc & _).
    now apply (orphanStream_ext i st).
Qed.

Lemma orphanStream_run (i : nat) (events : list Event) (st : App) :
  orphanStream i st -> orphanStream i (run events st).
Proof.
  revert st. induction events as [|ev events IH]; intros st Ho; [exact Ho|].
  cbn. apply IH. now apply orphanStream_step.
Qed.

(** X12.  A microphone stream left live by a session that ended without
    the user's stop (network close or error) is lost at the next start:
    once [getUserMedia] has answered again, [micStream] names the new
    stream, and no later event of any kind stops the old one.  The
    microphone stays captured for as long as the component lives. *)
Theorem restart_leaks_microphone (m : nat) (env : Acquisition)
    (events : list Event) (st : App) :
  micStream st = Some m ->
  mediaStreams st !! m = Some {| tracksLive := true |} ->
  isActive (session st) = false -> isConnecting (session st) = false ->
  (forall err : JsError, env <> GetUserMediaRejected err) ->
  mediaStreams (run (Click env :: events) st) !! m = Some {| tracksLive := true |}
  /\ micStream (run (Click env :: events) st) <> Some m
  /\ holdsCapture (run (Click env :: events) st) = true.
Proof.
  intros Hmic Hm Ha Hc Henv.
  assert (Ho : orphanStream m (step (Click env) st)).
  { cbn. unfold clickToggle, toggleSession. rewrite Hc, Ha.
    apply lookup_lt_Some in Hm as Hlt.
    destruct (startSession_streams env st) as [(_ & _ & err & He)|(Hms & Hmc)].
    - now contradiction (Henv err).
    - split; [rewrite Hmc; intros [= E]; lia|].
      exists {| tracksLive := true |}. split; [|reflexivity].
      rewrite Hms. now rewrite lookup_app_l. }
  apply (orphanStream_run m events) in Ho.
  change (run (Click env :: events) st) with (run events (step (Click env) st)).
  split; [|split].
  - destruct Ho as (_ & [[]] & Hlk & Hl); [exact Hlk | discriminate].
  - now destruct Ho.
  - now apply (orphanStream_holdsCapture m).
Qed.

End Orphans.

Lemma restart_leaks_microphone_witness :
  holdsCapture
    (@run exampleAudio [Click Acquired; Opened; Click Acquired; Closed]
       (onclose (runningSession 0 (1 # 10)))) = true.
Proof.
  apply (@restart_leaks_microphone exampleAudio 0%nat Acquired
           [Opened; Click Acquired; Closed] (onclose (runningSession 0 (1 # 10))));
    [reflexivity | reflexivity | reflexivity | reflexivity | discriminate].
Defined.

(** ** Starting a session *)

(** X13.  A start that fails always ends with an error banner on screen:
    the recorded message is the error's own when it has a non-empty one and
    ["Failed to connect."] otherwise, [isConnecting] is cleared (the button
    is enabled again) and [isActive] is as before.  A network error shows
    ["Connection error occurred."] whatever the error was. *)
Theorem failed_start_shows_banner (env : Acquisition) (err : JsError) (st : App) :
  thrown env = Some err ->
  let s := session (startSession env st) in
  (exists msg : jsstring, errorBanner s = Some msg /\ msg <> [])
  /\ (forall m : jsstring, message err = Some m -> m <> [] -> errorBanner s = Some m)
  /\ (message err = None \/ message err = Some [] ->
      errorBanner s = Some (lit "Failed to connect."))
  /\ isConnecting s = false /\ buttonDisabled s = false
  /\ isActive s = isActive (session st)
  /\ forall (err' : JsError) (st' : App),
       errorBanner (session (onerror err' st')) = Some (lit "Connection error occurred.").
Proof.
  intros Ht s.
  assert (Hs : s = {| isActive := isActive (session st); isConnecting := false;
                      mode := mode (session st);
                      error := Some (match message err with
                                     | Some m => if truthy m then m
                                                 else lit "Failed to connect."
                                     | None => lit "Failed to connect."
                                     end) |}).
  { subst s. destruct env; inversion Ht; subst; destruct st; reflexivity. }
  rewrite Hs. unfold errorBanner, buttonDisabled. cbn [error isConnecting isActive].
  split; [|split; [|split; [|split; [|split; [|split]]]]]; try reflexivity.
  - destruct (message err) as [[|c m]|]; cbn; eexists; split; try reflexivity; discriminate.
  - intros m -> Hne. destruct m; [contradiction | reflexivity].
  - intros [->| ->]; reflexivity.
  - intros err' st'. now destruct st'.
Qed.

Lemma failed_start_shows_banner_witness :
  errorBanner (session (startSession (GetUserMediaRejected {| message := Some [] |})
                          initialApp))
  = Some (lit "Failed to connect.").
Proof.
  apply (proj1 (proj2 (proj2 (failed_start_shows_banner
                                (GetUserMediaRejected {| message := Some [] |})
                                {| message := Some [] |} initialApp eq_refl)))).
  now right.
Defined.

Lemma startSession_Acquired_fields (st : App) :
  mediaStreams (startSession Acquired st) = mediaStreams st ++ [{| tracksLive := true |}]
  /\ micStream (startSession Acquired st) = Some (length (mediaStreams st))
  /\ audioContexts (startSession Acquired st)
     = audioContexts st ++ [{| sampleRate := 16000; contextClosed := false |};
                            {| sampleRate := 24000; contextClosed := false |}]
  /\ inputAudioContextRef (startSession Acquired st) = Some (length (audioContexts st))
  /\ outputAudioContextRef (startSession Acquired st) = Some (S (length (audioContexts st)))
  /\ liveSessions (startSession Acquired st) = liveSessions st ++ [{| closeCalled := false |}]
  /\ sessionPromiseRef (startSession Acquired st) = Some (length (liveSessions st))
  /\ session (startSession Acquired st)
     = {| isActive := isActive (session st); isConnecting := true;
          mode := mode (session st); error := None |}.
Proof.
  destruct st; cbn. rewrite length_app, <- app_assoc. cbn.
  rewrite Nat.add_1_r. repeat split.
Qed.

(** X14.  A start in which every acquisition succeeds: the component holds
    a new live microphone stream, a new open input context at 16000 Hz, a
    different new open output context at 24000 Hz and a new live session
    that was not closed; the objects that existed before are untouched, the
    previous error is cleared and the session is marked connecting. *)
Theorem start_acquires_devices (st : App) :
  let st' := startSession Acquired st in
  exists m i o p : nat,
    micStream st' = Some m /\ inputAudioContextRef st' = Some i
    /\ outputAudioContextRef st' = Some o /\ sessionPromiseRef st' = Some p
    /\ i <> o
    /\ mediaStreams st' !! m = Some {| tracksLive := true |}
    /\ audioContexts st' !! i = Some {| sampleRate := 16000; contextClosed := false |}
    /\ audioContexts st' !! o = Some {| sampleRate := 24000; contextClosed := false |}
    /\ liveSessions st' !! p = Some {| closeCalled := false |}
    /\ mediaStreams st !! m = None /\ audioContexts st !! i = None
    /\ audioContexts st !! o = None
    /\ (forall j : nat, (j < length (mediaStreams st))%nat ->
          mediaStreams st' !! j = mediaStreams st !! j)
    /\ (forall j : nat, (j < length (audioContexts st))%nat ->
          audioContexts st' !! j = audioContexts st !! j)
    /\ error (session st') = None /\ isConnecting (session st') = true.
Proof.
  intros st'.
  destruct (startSession_Acquired_fields st)
    as (Hms & Hm & Hac & Hi & Ho & Hls & Hp & Hs).
  exists (length (mediaStreams st)), (length (audioContexts st)),
         (S (length (audioContexts st))), (length (liveSessions st)).
  subst st'. rewrite Hms, Hm, Hac, Hi, Ho, Hls, Hp, Hs. cbn [error isConnecting].
  repeat split; try lia.
  - rewrite lookup_app_r by lia. now rewrite Nat.sub_diag.
  - rewrite lookup_app_r by lia. now rewrite Nat.sub_diag.
  - rewrite lookup_app_r by lia.
    replace (S (length (audioContexts st)) - length (audioContexts st))%nat
      with 1%nat by lia. reflexivity.
  - rewrite lookup_app_r by lia. now rewrite Nat.sub_diag.
  - apply lookup_ge_None. lia.
  - apply lookup_ge_None. lia.
  - apply lookup_ge_None. lia.
  - intros j Hj. now rewrite lookup_app_l.
  - intros j Hj. now rewrite lookup_app_l.
Qed.

(** ** The session flags *)

Section Flags.
Context `{AudioProcessing}.

Lemma flags_step (ev : Event) (st : App) :
  isActive (session st) && isConnecting (session st) = false ->
  isActive (session (step ev st)) && isConnecting (session (step ev st)) = false
  /\ mode (session (step ev st)) = mode (session st).
Proof.
  intros Hf. destruct ev as [env| | |now tUser tModel message|err| |n]; cbn [step].
  2: { destruct st; cbn in *. now split. }
  2: { destruct st; cbn in *. now split. }
  3, 4: destruct st; cbn in *; now split.
  3: { destruct st; cbn in *. now split. }
  - unfold clickToggle. destruct (isConnecting (session st)) eqn:Hc;
      [rewrite Hc; now split|].
    destruct (isActive (session st)) eqn:Ha.
    + destruct (toggleSession_stop_fields env st Ha) as (_ & _ & _ & _ & -> & _).
      now split.
    + unfold toggleSession. rewrite Ha.
      destruct (startSession_fields env st) as (_ & _ & _ & _ & _ & Hm & Hact).
      rewrite Hact, Ha. now split.
  - destruct (onmessage_streams now tUser tModel message st) as (_ & _ & _ & _ & _ & ->).
    now split.
Qed.

Lemma flags_run (events : list Event) (st : App) :
  isActive (session st) && isConnecting (session st) = false ->
  isActive (session (run events st)) && isConnecting (session (run events st)) = false
  /\ mode (session (run events st)) = mode (session st).
Proof.
  revert st. induction events as [|ev events IH]; intros st Hf; [now split|].
  cbn. destruct (flags_step ev st Hf) as [Hf' Hm].
  destruct (IH _ Hf') as [Hf'' Hm']. split; [exact Hf'' | exact (eq_trans Hm' Hm)].
Qed.

(** X15.  The flags [isActive] and [isConnecting] are never set together,
    and the translation mode is never written: from the initial state every
    state has mode [AUTO]. *)
Theorem session_flags_exclusive (events : list Event) :
  isActive (session (run events initialApp))
  && isConnecting (session (run events initialApp)) = false
  /\ mode (session (run events initialApp)) = AUTO.
Proof. apply (flags_run events initialApp). reflexivity. Qed.

(** X16.  What the round button shows is consistent in every state the
    component can be in: the spinner goes with the label ["Connecting..."]
    and a disabled button, the stop icon with ["Tap to stop translating"],
    the microphone icon with ["Tap to start voice translation"], the last
    two with an enabled button. *)
Theorem button_icon_matches_label (events : list Event) :
  let s := session (run events initialApp) in
  (buttonIcon s = Spinner /\ statusLabel s = lit "Connecting..."
   /\ buttonDisabled s = true)
  \/ (buttonIcon s = StopIcon /\ statusLabel s = lit "Tap to stop translating"
      /\ buttonDisabled s = false)
  \/ (buttonIcon s = MicIcon /\ statusLabel s = lit "Tap to start voice translation"
      /\ buttonDisabled s = false).
Proof.
  intros s. destruct (flags_run events initialApp eq_refl) as [Hf _]. fold s in Hf.
  unfold buttonIcon, statusLabel, buttonDisabled.
  destruct (isActive s), (isConnecting s); try discriminate; auto.
Qed.

End Flags.

(** ** A session from start to stop *)

Lemma existsb_false_lookup {A : Type} (f : A -> bool) (l : list A) :
  existsb f l = false -> forall (i : nat) (x : A), l !! i = Some x -> f x = false.
Proof.
  intros He i x Hi. destruct (f x) eqn:E; [|reflexivity].
  assert (Ht : existsb f l = true).
  { apply existsb_exists. exists x. split; [|exact E].
    apply list_elem_of_In, list_elem_of_lookup. now exists i. }
  congruence.
Qed.

Lemma tracked_ext (st st' : App) :
  mediaStreams st' = mediaStreams st -> audioContexts st' = audioContexts st ->
  micStream st' = micStream st ->
  inputAudioContextRef st' = inputAudioContextRef st ->
  outputAudioContextRef st' = outputAudioContextRef st ->
  tracked st -> tracked st'.
Proof. unfold tracked. intros -> -> -> -> ->. tauto. Qed.

Lemma tracked_startSession (st : App) :
  holdsDevice st = false -> tracked (startSession Acquired st).
Proof.
  intros Hh. apply orb_false_elim in Hh as [Hcap Hout].
  destruct (startSession_Acquired_fields st) as (Hms & Hm & Hac & Hi & Ho & _).
  split.
  - intros i m Hlk Hl. rewrite Hms in Hlk. rewrite Hm.
    apply lookup_app_Some in Hlk as [Hlk|[Hge Hlk]].
    + rewrite (existsb_false_lookup _ _ Hcap i m Hlk) in Hl. discriminate.
    + destruct (i - length (mediaStreams st))%nat eqn:E; [|discriminate].
      f_equal. lia.
  - intros i c Hlk Hl. rewrite Hac in Hlk. rewrite Hi, Ho.
    apply lookup_app_Some in Hlk as [Hlk|[Hge Hlk]].
    + pose proof (existsb_false_lookup _ _ Hout i c Hlk) as Hc. cbn in Hc.
      rewrite Hl in Hc. discriminate.
    + destruct (i - length (audioContexts st))%nat as [|[|k]] eqn:E; [| |discriminate].
      * left. f_equal. lia.
      * right. f_equal. lia.
Qed.

Section RoundTrip.
Context `{AudioProcessing}.

Lemma run_app (l1 l2 : list Event) (st : App) :
  run (l1 ++ l2) st = run l2 (run l1 st).
Proof. apply fold_left_app. Qed.

Lemma inSession_step (ev : Event) (st : App) :
  inSession ev = true -> tracked st ->
  tracked (step ev st) /\ session (step ev st) = session st.
Proof.
  intros Hin Ht. destruct ev as [env| | |now tUser tModel message|err| |n];
    try discriminate; cbn [step].
  - split; [|now destruct st].
    apply (tracked_ext st); try exact Ht; now destruct st.
  - destruct (onmessage_streams now tUser tModel message st)
      as (Hms & Hm & Hac & Hi & Ho & Hs).
    split; [|exact Hs]. now apply (tracked_ext st).
  - split; [|now destruct st].
    apply (tracked_ext st); try exact Ht; now destruct st.
Qed.

Lemma inSession_run (events : list Event) (st : App) :
  forallb inSession events = true -> tracked st ->
  tracked (run events st) /\ session (run events st) = session st.
Proof.
  revert st. induction events as [|ev events IH]; intros st Hall Ht; [now split|].
  cbn in Hall. apply andb_prop in Hall as [Hev Hall].
  destruct (inSession_step ev st Hev Ht) as [Ht' Hs'].
  destruct (IH _ Hall Ht') as [Ht'' Hs'']. cbn.
  split; [exact Ht'' | exact (eq_trans Hs'' Hs')].
Qed.

(** X17.  From a state in which no device is held, a session that is
    started (every acquisition succeeding), opened, used for any number of
    messages and ended by the user's stop leaves no device held: the
    microphone stream is stopped, both audio contexts are closed, the handle
    set is empty, [nextStartTime] is 0 and both flags are cleared. *)
Theorem start_stop_releases_everything (events : list Event) (env : Acquisition) (st : App) :
  holdsDevice st = false ->
  isActive (session st) = false -> isConnecting (session st) = false ->
  forallb inSession events = true ->
  let st' := run (Click Acquired :: Opened :: events ++ [Click env]) st in
  holdsDevice st' = false
  /\ sourcesRef st' = ∅
  /\ nextStartTimeRef st' = 0%Q
  /\ isActive (session st') = false
  /\ isConnecting (session st') = false
  /\ micStream st' = None.
Proof.
  intros Hh Ha Hc Hin st'.
  set (st1 := onopen (startSession Acquired st)).
  assert (Hst1 : run [Click Acquired; Opened] st = st1).
  { cbn. unfold clickToggle, toggleSession. now rewrite Hc, Ha. }
  assert (Ht1 : tracked st1).
  { apply (tracked_ext (startSession Acquired st)); try (subst st1; now apply sessionOnly_fields).
    now apply tracked_startSession. }
  assert (Hs1 : isActive (session st1) = true /\ isConnecting (session st1) = false).
  { subst st1. destruct (startSession Acquired st); now split. }
  destruct (inSession_run events st1 Hin Ht1) as [Ht2 Hs2].
  assert (Hst' : st' = toggleSession env (run events st1)).
  { subst st'.
    change (Click Acquired :: Opened :: events ++ [Click env])
      with ([Click Acquired; Opened] ++ events ++ [Click env]).
    rewrite !run_app, Hst1. cbn. unfold clickToggle.
    rewrite Hs2. now rewrite (proj2 Hs1). }
  assert (Hact : isActive (session (run events st1)) = true)
    by (rewrite Hs2; exact (proj1 Hs1)).
  destruct (user_stop_releases env _ Hact Ht2) as (H1 & H2 & H3 & H4).
  destruct (toggleSession_stop_fields env _ Hact) as (_ & _ & _ & _ & H5 & H6).
  rewrite Hst'. rewrite H5 at 2. repeat split; assumption.
Qed.

End RoundTrip.

Lemma start_stop_releases_everything_witness :
  holdsDevice
    (@run exampleAudio
       (Click Acquired :: Opened
        :: [Message 0 0 0 (speechChunk (repeat 65%N 8) false); Ended 0%nat; ClearClicked]
        ++ [Click Acquired])
       initialApp) = false.
Proof.
  apply (@start_stop_releases_everything exampleAudio
           [Message 0 0 0 (speechChunk (repeat 65%N 8) false); Ended 0%nat; ClearClicked]
           Acquired initialApp); reflexivity.
Defined.

(** ** [TranslationLog]: the keys of the entries *)

Lemma lit_inj (s1 s2 : string) : lit s1 = lit s2 -> s1 = s2.
Proof.
  unfold lit. intros E.
  assert (El : list_ascii_of_string s1 = list_ascii_of_string s2).
  { revert E. generalize (list_ascii_of_string s1) (list_ascii_of_string s2).
    induction l as [|a l IH]; intros [|b l'] E; try discriminate; [reflexivity|].
    cbn in E. inversion E as [[Ea El]]. f_equal; [|now apply IH].
    rewrite <- (ascii_N_embedding a), <- (ascii_N_embedding b). now rewrite Ea. }
  rewrite <- (string_of_list_ascii_of_string s1), <- (string_of_list_ascii_of_string s2).
  now rewrite El.
Qed.

Lemma indexToString_inj (i j : nat) : indexToString i = indexToString j -> i = j.
Proof.
  unfold indexToString. intros E. apply lit_inj in E.
  apply Unsigned.to_uint_inj.
  assert (Es : Some (Nat.to_uint i) = Some (Nat.to_uint j))
    by (rewrite <- !NilEmpty.usu; now rewrite E).
  now inversion Es.
Qed.

(** The decimal digits of an index hold no minus sign. *)
Lemma indexToString_no_dash (i : nat) : 45%N ∉ indexToString i.
Proof.
  unfold indexToString. generalize (Nat.to_uint i). intros d.
  induction d; cbn; intros Hin;
    try (apply elem_of_cons in Hin as [Hin|Hin]; [discriminate | contradiction]).
  now apply elem_of_nil in Hin.
Qed.

Lemma app_cons_inj_r {A : Type} (x : A) (l1 l2 r1 r2 : list A) :
  x ∉ r1 -> x ∉ r2 -> l1 ++ x :: r1 = l2 ++ x :: r2 -> r1 = r2.
Proof.
  intros H1 H2 E.
  assert (Er : rev r1 ++ x :: rev l1 = rev r2 ++ x :: rev l2).
  { apply (f_equal (@rev A)) in E. rewrite !rev_app_distr in E. cbn in E.
    now rewrite <- !app_assoc in E. }
  assert (Hr1 : x ∉ rev r1).
  { intros Hin. apply H1, list_elem_of_In, in_rev. now apply list_elem_of_In. }
  assert (Hr2 : x ∉ rev r2).
  { intros Hin. apply H2, list_elem_of_In, in_rev. now apply list_elem_of_In. }
  clear H1 H2 E.
  assert (Erev : rev r1 = rev r2).
  { revert Er Hr1 Hr2. generalize (rev r1) (rev r2) (rev l1) (rev l2).
    induction l as [|a l IH]; intros [|b l'] t t' E Ha Hb.
    - reflexivity.
    - cbn in E. inversion E; subst. exfalso. apply Hb. now left.
    - cbn in E. inversion E; subst. exfalso. apply Ha. now left.
    - cbn in E. inversion E; subst. f_equal.
      apply (IH l' t t'); [assumption | |].
      + intros Hin. apply Ha. now right.
      + intros Hin. apply Hb. now right. }
  rewrite <- (rev_involutive r1), <- (rev_involutive r2). now rewrite Erev.
Qed.

Lemma bubbleKey_inj (i j : nat) (t t' : Transcription) :
  bubbleKey (renderEntry i t) = bubbleKey (renderEntry j t') -> i = j.
Proof.
  cbn. intros E. apply indexToString_inj.
  apply (app_cons_inj_r 45%N (numberToString (timestamp t))
           (numberToString (timestamp t'))); auto using indexToString_no_dash.
Qed.

(** X18.  The rendered log.  An empty log shows the placeholder; otherwise
    there is one bubble per entry, in the order of the log, with the entry's
    text, user entries aligned to the end and captioned ["Original"], model
    entries captioned ["Translated"].  The React keys of the bubbles are
    pairwise different, also when two entries carry the same timestamp. *)
Theorem log_view_keys_distinct (transcriptions : list Transcription) :
  (transcriptions = [] ->
   TranslationLog transcriptions = Placeholder (lit "Start speaking to see translations..."))
  /\ (transcriptions <> [] ->
      exists bubbles : list Bubble,
        TranslationLog transcriptions = Bubbles bubbles
        /\ map bubbleText bubbles = map text transcriptions
        /\ NoDup (map bubbleKey bubbles)
        /\ forall (i : nat) (b : Bubble) (t : Transcription),
             bubbles !! i = Some b -> transcriptions !! i = Some t ->
             (role t = role_user -> itemsEnd b = true /\ caption b = lit "Original")
             /\ (role t = role_model -> itemsEnd b = false /\ caption b = lit "Translated")).
Proof.
  split; [now intros ->|].
  intros Hne. exists (imap renderEntry transcriptions).
  split; [destruct transcriptions; [contradiction | reflexivity]|].
  split; [|split].
  - apply list_eq. intros i.
    rewrite !list_lookup_fmap, list_lookup_imap.
    now destruct (transcriptions !! i).
  - apply NoDup_alt. intros i j k Hi Hj.
    rewrite list_lookup_fmap, list_lookup_imap in Hi, Hj.
    destruct (transcriptions !! i) as [t|]; [|discriminate].
    destruct (transcriptions !! j) as [t'|]; [|discriminate].
    change (Some (bubbleKey (renderEntry i t)) = Some k) in Hi.
    change (Some (bubbleKey (renderEntry j t')) = Some k) in Hj.
    apply (bubbleKey_inj i j t t'). congruence.
  - intros i b t Hb Ht. rewrite list_lookup_imap, Ht in Hb.
    inversion Hb; subst b. cbn.
    destruct (role t); split; intros; try discriminate; now split.
Qed.

Lemma log_view_keys_distinct_witness :
  exists bubbles : list Bubble,
    TranslationLog [{| role := role_model; text := lit "Hola"; timestamp := 11 |};
                    {| role := role_user; text := lit "Bye"; timestamp := 11 |}]
    = Bubbles bubbles
    /\ NoDup (map bubbleKey bubbles).
Proof.
  destruct (proj2 (log_view_keys_distinct
                     [{| role := role_model; text := lit "Hola"; timestamp := 11 |};
                      {| role := role_user; text := lit "Bye"; timestamp := 11 |}]))
    as (bubbles & Hb & _ & Hk & _); [discriminate|].
  exists bubbles. now split.
Defined.

(** ** [AudioVisualizer]: the bars of a frame *)

Lemma byte_level_range (d : Byte.byte) :
  (0 <= inject_Z (Z.of_N (Byte.to_N d)) / 255 <= 1)%Q.
Proof.
  pose proof (Byte.to_N_bounded d) as Hb.
  assert (H0 : (inject_Z 0 <= inject_Z (Z.of_N (Byte.to_N d)))%Q)
    by (rewrite <- Zle_Qle; lia).
  assert (H1 : (inject_Z (Z.of_N (Byte.to_N d)) <= inject_Z 255)%Q)
    by (rewrite <- Zle_Qle; lia).
  split.
  - apply Qle_shift_div_l; [reflexivity|]. rewrite Qmult_0_l. exact H0.
  - apply Qle_shift_div_r; [reflexivity|]. rewrite Qmult_1_l. exact H1.
Qed.

Lemma drawBars_length (canvasHeight barWidth : Q) (dataArray : list Byte.byte) :
  forall x : Q, length (drawBars canvasHeight barWidth x dataArray) = length dataArray.
Proof.
  induction dataArray as [|d rest IH]; intros x; [reflexivity|].
  cbn. now rewrite IH.
Qed.

Lemma drawBars_lookup (canvasHeight barWidth : Q) (dataArray : list Byte.byte) :
  forall (x : Q) (i : nat) (bar : Bar),
    drawBars canvasHeight barWidth x dataArray !! i = Some bar ->
    exists d : Byte.byte,
      dataArray !! i = Some d
      /\ (barX bar == x + inject_Z (Z.of_nat i) * (barWidth + 2))%Q
      /\ barW bar = barWidth
      /\ barH bar = (inject_Z (Z.of_N (Byte.to_N d)) / 255 * canvasHeight)%Q
      /\ barY bar = (canvasHeight - barH bar)%Q
      /\ barAlpha bar = (inject_Z (Z.of_N (Byte.to_N d)) / 255 + (2 # 10))%Q.
Proof.
  induction dataArray as [|d rest IH]; intros x i bar Hb; [discriminate|].
  destruct i as [|i].
  - cbn in Hb. inversion Hb; subst bar; clear Hb. exists d. cbn.
    repeat split. ring.
  - cbn in Hb. destruct (IH _ i bar Hb) as (d' & Hd & Hx & Hrest).
    exists d'. split; [exact Hd|]. split; [|exact Hrest].
    rewrite Hx, Nat2Z.inj_succ. unfold Z.succ. rewrite inject_Z_plus. ring.
Qed.

(** X19.  Every bar the visualizer draws stays inside the canvas
    vertically: its height is between 0 and the canvas height, it stands on
    the bottom edge, and the alpha of its colour is between 0.2 and 1.2.  A
    frequency byte of 255 gives a bar of full height, a byte of 0 a bar of
    height 0. *)
Theorem bars_fit_canvas_height (canvasWidth canvasHeight : Q)
    (dataArray : list Byte.byte) (i : nat) (bar : Bar) :
  (0 <= canvasHeight)%Q ->
  draw canvasWidth canvasHeight dataArray !! i = Some bar ->
  (0 <= barH bar <= canvasHeight)%Q
  /\ (0 <= barY bar)%Q
  /\ (barY bar + barH bar == canvasHeight)%Q
  /\ (2 # 10 <= barAlpha bar <= 12 # 10)%Q
  /\ (dataArray !! i = Some Byte.xff -> (barH bar == canvasHeight)%Q)
  /\ (dataArray !! i = Some Byte.x00 -> (barH bar == 0)%Q).
Proof.
  intros HH Hb. unfold draw in Hb.
  destruct (drawBars_lookup _ _ _ _ _ _ Hb) as (d & Hd & _ & _ & Hh & Hy & Ha).
  pose proof (byte_level_range d) as [Hl0 Hl1].
  rewrite Hy, Ha, Hh.
  set (r := (inject_Z (Z.of_N (Byte.to_N d)) / 255)%Q) in *.
  assert (Hrh : (0 <= r * canvasHeight)%Q) by (apply Qmult_le_0_compat; assumption).
  assert (Hrh' : (r * canvasHeight <= canvasHeight)%Q).
  { rewrite <- (Qmult_1_l canvasHeight) at 2. now apply Qmult_le_compat_r. }
  repeat split; try lra.
  - intros Hff. rewrite Hd in Hff. inversion Hff; subst d.
    subst r. change (inject_Z (Z.of_N (Byte.to_N Byte.xff)) / 255)%Q with (255 / 255)%Q.
    field.
  - intros H00. rewrite Hd in H00. inversion H00; subst d.
    subst r. change (inject_Z (Z.of_N (Byte.to_N Byte.x00)) / 255)%Q with (0 / 255)%Q.
    field.
Qed.

Lemma bars_fit_canvas_height_witness :
  exists bar : Bar,
    draw 300 50 [Byte.xff; Byte.x00] !! 0%nat = Some bar
    /\ (0 <= barH bar <= 50)%Q.
Proof.
  eexists. split; [reflexivity|].
  eapply (bars_fit_canvas_height 300 50 [Byte.xff; Byte.x00] 0%nat);
    [discriminate | reflexivity].
Defined.

(** X20.  The layout of a frame: one bar per frequency byte, all of width
    [canvasWidth / n * 2.5], the [i]-th starting at [i * (width + 2)], so
    that each bar starts 2 units after the end of the one before.  On a
    canvas of positive width the last bar always ends beyond the right
    edge: the row of bars is more than two and a half times as wide as the
    canvas. *)
Theorem bars_layout_overflows (canvasWidth canvasHeight : Q) (dataArray : list Byte.byte) :
  let barWidth := (canvasWidth / inject_Z (Z.of_nat (length dataArray)) * (25 # 10))%Q in
  length (draw canvasWidth canvasHeight dataArray) = length dataArray
  /\ (forall (i : nat) (bar : Bar),
        draw canvasWidth canvasHeight dataArray !! i = Some bar ->
        barW bar = barWidth
        /\ (barX bar == inject_Z (Z.of_nat i) * (barWidth + 2))%Q)
  /\ (forall (i : nat) (bar bar' : Bar),
        draw canvasWidth canvasHeight dataArray !! i = Some bar ->
        draw canvasWidth canvasHeight dataArray !! S i = Some bar' ->
        (barX bar' == barX bar + barW bar + 2)%Q)
  /\ (forall bar : Bar,
        (0 < canvasWidth)%Q ->
        last (draw canvasWidth canvasHeight dataArray) = Some bar ->
        (canvasWidth * (25 # 10) <= barX bar + barW bar)%Q
        /\ (canvasWidth < barX bar + barW bar)%Q).
Proof.
  intros barWidth.
  assert (Hpos : forall (i : nat) (bar : Bar),
             draw canvasWidth canvasHeight dataArray !! i = Some bar ->
             barW bar = barWidth
             /\ (barX bar == inject_Z (Z.of_nat i) * (barWidth + 2))%Q).
  { intros i bar Hb. unfold draw in Hb.
    destruct (drawBars_lookup _ _ _ _ _ _ Hb) as (d & _ & Hx & Hw & _).
    split; [exact Hw|]. rewrite Hx. fold barWidth. ring. }
  split; [apply drawBars_length|]. split; [exact Hpos|]. split.
  - intros i bar bar' Hb Hb'.
    destruct (Hpos i bar Hb) as [Hw Hx]. destruct (Hpos (S i) bar' Hb') as [_ Hx'].
    rewrite Hx', Hx, Hw, Nat2Z.inj_succ. unfold Z.succ. rewrite inject_Z_plus. ring.
  - intros bar HW Hlast. rewrite last_lookup in Hlast.
    pose proof (drawBars_length canvasHeight barWidth dataArray 0%Q) as Hlen.
    change (length (draw canvasWidth canvasHeight dataArray) = length dataArray) in Hlen.
    rewrite Hlen in Hlast.
    destruct (length dataArray) as [|m] eqn:En.
    { apply lookup_lt_Some in Hlast. rewrite Hlen in Hlast. cbn in Hlast. lia. }
    cbn [pred] in Hlast. destruct (Hpos m bar Hlast) as [Hw Hx].
    assert (Hm : (0 <= inject_Z (Z.of_nat m))%Q)
      by (change 0%Q with (inject_Z 0); rewrite <- Zle_Qle; lia).
    assert (Hbw : ((inject_Z (Z.of_nat m) + 1) * barWidth == canvasWidth * (25 # 10))%Q).
    { subst barWidth. rewrite ?En, Nat2Z.inj_succ. unfold Z.succ. rewrite inject_Z_plus.
      change (inject_Z 1) with 1%Q. field. lra. }
    rewrite Hx, Hw.
    set (mq := inject_Z (Z.of_nat m)) in *. set (bw := barWidth) in *.
    assert (Hsum : (mq * (bw + 2) + bw == canvasWidth * (25 # 10) + 2 * mq)%Q).
    { rewrite <- Hbw. ring. }
    rewrite Hsum. split; lra.
Qed.

(** ** The "Clear" button *)

Lemma handleTranscription_clearLog (message : LiveServerMessage) (st : App) :
  transcriptionBufferRef (handleTranscription message (clearLog st))
  = transcriptionBufferRef (handleTranscription message st).
Proof.
  unfold handleTranscription.
  destruct (serverContent message ≫= inputTranscription),
           (serverContent message ≫= outputTranscription), st; reflexivity.
Qed.

Section Clear.
Context `{AudioProcessing}.

(** X21.  "Clear" empties the log and nothing else: text buffered for the
    turn in progress is kept, so the message that closes the turn leaves in
    the log exactly the entries it would have appended had the log not been
    cleared. *)
Theorem clear_keeps_pending_turn (now : Q) (tUser tModel : Z)
    (message : LiveServerMessage) (st : App) :
  transcriptions (step ClearClicked st) = []
  /\ transcriptionBufferRef (step ClearClicked st) = transcriptionBufferRef st
  /\ transcriptions (run [ClearClicked; Message now tUser tModel message] st)
     = drop (length (transcriptions st))
         (transcriptions (step (Message now tUser tModel message) st)).
Proof.
  split; [now destruct st|]. split; [now destruct st|].
  cbn [run fold_left step]. rewrite !onmessage_log, drop_app_length.
  rewrite handleTranscription_clearLog. now destruct st.
Qed.

End Clear.
